(** * Email agent: shared context, contact upsert and report generators

    A shallow embedding of [email_agent/main.py].  The agent keeps one
    mutable [EmailAgentContext]; tools mutate it and render plain-text
    reports.  Contact records are Python objects held by reference, so the
    model keeps an object store and the context's [outreach_list] is a list
    of references into it.  [datetime.now()] is a reading of a clock that
    advances with every call. *)

From Stdlib Require Import ZArith List String Ascii Bool Lia DecimalString.
From Stdlib Require Import Permutation.
Import ListNotations.

Local Open Scope Z_scope.
Local Open Scope list_scope.
Local Open Scope string_scope.

(* ================================================================== *)
(** ** Python strings *)

Module PyStr.

(** The line feed, written [\n] in the source. *)
Definition nl : string := String (ascii_of_nat 10) EmptyString.

(** [sep.join(l)] *)
Definition join (sep : string) (l : list string) : string :=
  String.concat sep l.

(** [s * n] for a string [s]. *)
Fixpoint repeat_str (s : string) (n : nat) : string :=
  match n with
  | O => EmptyString
  | S n' => s ++ repeat_str s n'
  end.

(** [s.replace(old, new)] where [old] and [new] are single characters. *)
Fixpoint replace_char (old new : ascii) (s : string) : string :=
  match s with
  | EmptyString => EmptyString
  | String c s' =>
      String (if Ascii.eqb c old then new else c) (replace_char old new s')
  end.

Definition is_lower (c : ascii) : bool :=
  let n := nat_of_ascii c in (97 <=? n)%nat && (n <=? 122)%nat.

Definition is_upper (c : ascii) : bool :=
  let n := nat_of_ascii c in (65 <=? n)%nat && (n <=? 90)%nat.

Definition to_upper (c : ascii) : ascii :=
  if is_lower c then ascii_of_nat (nat_of_ascii c - 32) else c.

Definition to_lower (c : ascii) : ascii :=
  if is_upper c then ascii_of_nat (nat_of_ascii c + 32) else c.

(** [s.title()] on ASCII text: a cased character is upper-cased when the
    previous character is not cased and lower-cased when it is. *)
Fixpoint title_from (previous_is_cased : bool) (s : string) : string :=
  match s with
  | EmptyString => EmptyString
  | String c s' =>
      if is_lower c then
        String (if previous_is_cased then c else to_upper c)
               (title_from true s')
      else if is_upper c then
        String (if previous_is_cased then to_lower c else c)
               (title_from true s')
      else String c (title_from false s')
  end.

Definition title (s : string) : string := title_from false s.

(** [str(n)] for an integer. *)
Definition str_of_Z (n : Z) : string :=
  NilZero.string_of_int (Z.to_int n).

(** [needle in hay] *)
Fixpoint contains (needle hay : string) : bool :=
  match hay with
  | EmptyString => String.prefix needle EmptyString
  | String _ hay' => String.prefix needle hay || contains needle hay'
  end.

(** [s.rjust(width, "0")] *)
Definition zfill (width : nat) (s : string) : string :=
  repeat_str "0" (width - String.length s) ++ s.

End PyStr.
Import PyStr.

(* ================================================================== *)
(** ** Dates and times

    A naive [datetime] is the number of microseconds since
    0001-01-01T00:00:00, the origin of Python's proleptic Gregorian
    calendar.  A [timedelta] is a number of microseconds. *)

Module PyTime.

Local Open Scope Z_scope.

Definition datetime := Z.
Definition timedelta := Z.

Definition us_per_day : Z := 86400000000.

(** [timedelta(days=n)] *)
Definition timedelta_days (n : Z) : timedelta := n * us_per_day.

(** [td.days]: timedeltas are normalised with a non-negative remainder,
    so the day count is the floor of the quotient. *)
Definition days (td : timedelta) : Z := td / us_per_day.

(** [dt.date().toordinal()]: day 1 is 0001-01-01. *)
Definition toordinal (dt : datetime) : Z := dt / us_per_day + 1.

Definition days_before_month (m : Z) : Z :=
  match m with
  | 1 => 0 | 2 => 31 | 3 => 59 | 4 => 90 | 5 => 120 | 6 => 151
  | 7 => 181 | 8 => 212 | 9 => 243 | 10 => 273 | 11 => 304 | 12 => 334
  | _ => -1
  end.

Definition days_in_month (m : Z) : Z :=
  match m with
  | 1 => 31 | 2 => 28 | 3 => 31 | 4 => 30 | 5 => 31 | 6 => 30
  | 7 => 31 | 8 => 31 | 9 => 30 | 10 => 31 | 11 => 30 | 12 => 31
  | _ => -1
  end.

Definition b2z (b : bool) : Z := if b then 1 else 0.

(** The standard library's conversion of an ordinal to year, month, day. *)
Definition ord2ymd (ordinal : Z) : Z * Z * Z :=
  let n := ordinal - 1 in
  let n400 := n / 146097 in
  let n := n mod 146097 in
  let n100 := n / 36524 in
  let n := n mod 36524 in
  let n4 := n / 1461 in
  let n := n mod 1461 in
  let n1 := n / 365 in
  let n := n mod 365 in
  let year := n400 * 400 + 1 + n100 * 100 + n4 * 4 + n1 in
  if (n1 =? 4) || (n100 =? 4) then (year - 1, 12, 31)
  else
    let leapyear := (n1 =? 3) && (negb (n4 =? 24) || (n100 =? 3)) in
    let month := Z.shiftr (n + 50) 5 in
    let preceding :=
      days_before_month month + b2z ((2 <? month) && leapyear) in
    if n <? preceding then
      let month' := month - 1 in
      let preceding' :=
        preceding - (days_in_month month' + b2z ((month' =? 2) && leapyear)) in
      (year, month', n - preceding' + 1)
    else (year, month, n - preceding + 1).

(** [str(dt.date())], the ISO form YYYY-MM-DD. *)
Definition date_str (dt : datetime) : string :=
  let '(y, m, d) := ord2ymd (toordinal dt) in
  (zfill 4 (str_of_Z y) ++ "-" ++ zfill 2 (str_of_Z m) ++ "-"
     ++ zfill 2 (str_of_Z d))%string.

End PyTime.
Import PyTime.

(* ================================================================== *)
(** ** Insertion-ordered dictionaries

    A Python [dict] iterates in insertion order; assigning to a key that is
    present keeps its position. *)

Section Dict.

Context {K V : Type}.
Variable eqb : K -> K -> bool.

Definition dict := list (K * V).

(** [d.get(k, default)] *)
Fixpoint dict_get (d : dict) (k : K) (default : V) : V :=
  match d with
  | [] => default
  | (k', v) :: d' => if eqb k' k then v else dict_get d' k default
  end.

(** [d[k] = v] *)
Fixpoint dict_set (d : dict) (k : K) (v : V) : dict :=
  match d with
  | [] => [(k, v)]
  | (k', v') :: d' =>
      if eqb k' k then (k', v) :: d' else (k', v') :: dict_set d' k v
  end.

(** [k in d] *)
Fixpoint dict_mem (d : dict) (k : K) : bool :=
  match d with
  | [] => false
  | (k', _) :: d' => eqb k' k || dict_mem d' k
  end.

(** [d.items()] *)
Definition dict_items (d : dict) : list (K * V) := d.

End Dict.

Arguments dict : clear implicits.

(* ================================================================== *)
(** ** Data model *)

Inductive Status : Type :=
| initial_sent
| follow_up_1_sent
| follow_up_2_sent
| replied
| unresponsive.

(** The string each member of the [Literal] stands for. *)
Definition status_value (s : Status) : string :=
  match s with
  | initial_sent => "initial_sent"
  | follow_up_1_sent => "follow_up_1_sent"
  | follow_up_2_sent => "follow_up_2_sent"
  | replied => "replied"
  | unresponsive => "unresponsive"
  end.

Definition Status_eqb (a b : Status) : bool :=
  String.eqb (status_value a) (status_value b).

Record OutreachContact : Type := mkOutreachContact {
  name : string;
  email : string;
  status : Status;
  last_contact_date : datetime
}.

Record MedicalNewsSummary : Type := mkMedicalNewsSummary {
  source_email_subject : string;
  summary : string;
  trend : string;
  date : datetime
}.

(** A reference to an [OutreachContact] object. *)
Definition ref := nat.

Record EmailAgentContext : Type := mkEmailAgentContext {
  outreach_list : list ref;
  medical_summaries : list MedicalNewsSummary;
  weekly_report : list string;
  bi_weekly_report : list string
}.

(** The state a tool runs in: the object store, the next unused reference,
    the agent context, and the clock with the number of readings taken. *)
Record World : Type := mkWorld {
  objs : ref -> OutreachContact;
  next_ref : ref;
  ctx : EmailAgentContext;
  clock : nat -> datetime;
  ticks : nat
}.

(** The contact objects of the outreach list, in list order. *)
Definition contacts (w : World) : list OutreachContact :=
  map (objs w) (outreach_list (ctx w)).

(** Every reference held by the outreach list has been allocated. *)
Definition wf (w : World) : bool :=
  forallb (fun r => (r <? next_ref w)%nat) (outreach_list (ctx w)).

(* ================================================================== *)
(** ** The state monad of the tools *)

Definition M (A : Type) : Type := World -> A * World.

Definition ret {A} (a : A) : M A := fun w => (a, w).

Definition bind {A B} (m : M A) (k : A -> M B) : M B :=
  fun w => let '(a, w') := m w in k a w'.

Notation "x <- m ;; k" := (bind m (fun x => k))
  (at level 61, m at next level, right associativity).
Notation "m ;;; k" := (bind m (fun _ => k))
  (at level 61, right associativity).

(** [datetime.now()] *)
Definition now : M datetime :=
  fun w => (clock w (ticks w),
            mkWorld (objs w) (next_ref w) (ctx w) (clock w) (S (ticks w))).

Definition get_ctx : M EmailAgentContext := fun w => (ctx w, w).

Definition put_ctx (c : EmailAgentContext) : M unit :=
  fun w => (tt, mkWorld (objs w) (next_ref w) c (clock w) (ticks w)).

Definition deref (r : ref) : M OutreachContact := fun w => (objs w r, w).

Definition store (r : ref) (c : OutreachContact) : M unit :=
  fun w => (tt, mkWorld (fun r' => if (r' =? r)%nat then c else objs w r')
                        (next_ref w) (ctx w) (clock w) (ticks w)).

(** Construction of a new contact object. *)
Definition alloc (c : OutreachContact) : M ref :=
  fun w => (next_ref w,
            mkWorld (fun r' => if (r' =? next_ref w)%nat then c else objs w r')
                    (S (next_ref w)) (ctx w) (clock w) (ticks w)).

(** [contact.status = st] *)
Definition set_status (r : ref) (st : Status) : M unit :=
  c <- deref r ;;
  store r (mkOutreachContact (name c) (email c) st (last_contact_date c)).

(** [contact.last_contact_date = t] *)
Definition set_last_contact_date (r : ref) (t : datetime) : M unit :=
  c <- deref r ;;
  store r (mkOutreachContact (name c) (email c) (status c) t).

(** [context.context.outreach_list.append(r)] *)
Definition outreach_list_append (r : ref) : M unit :=
  c <- get_ctx ;;
  put_ctx (mkEmailAgentContext (outreach_list c ++ [r]) (medical_summaries c)
                               (weekly_report c) (bi_weekly_report c)).

(** [context.context.medical_summaries.append(s)] *)
Definition medical_summaries_append (s : MedicalNewsSummary) : M unit :=
  c <- get_ctx ;;
  put_ctx (mkEmailAgentContext (outreach_list c) (medical_summaries c ++ [s])
                               (weekly_report c) (bi_weekly_report c)).

(** [context.context.weekly_report.append(s)] *)
Definition weekly_report_append (s : string) : M unit :=
  c <- get_ctx ;;
  put_ctx (mkEmailAgentContext (outreach_list c) (medical_summaries c)
                               (weekly_report c ++ [s]) (bi_weekly_report c)).

(** [context.context.bi_weekly_report.append(s)] *)
Definition bi_weekly_report_append (s : string) : M unit :=
  c <- get_ctx ;;
  put_ctx (mkEmailAgentContext (outreach_list c) (medical_summaries c)
                               (weekly_report c) (bi_weekly_report c ++ [s])).

(* ================================================================== *)
(** ** Context tools *)

(** [add_medical_summary_to_context] *)
Definition add_medical_summary_to_context
    (subject summ trnd : string) : M string :=
  t <- now ;;
  medical_summaries_append (mkMedicalNewsSummary subject summ trnd t) ;;;
  ret "Successfully added medical summary to context.".

(** The [for contact in outreach_list] loop of the upsert: updates the first
    contact whose email matches and reports the text it returns with, or
    falls through with [None]. *)
Fixpoint upsert_scan (l : list ref) (nm em : string) (st : Status)
  : M (option string) :=
  match l with
  | [] => ret None
  | r :: rest =>
      contact <- deref r ;;
      if String.eqb (email contact) em then
        set_status r st ;;;
        t <- now ;;
        set_last_contact_date r t ;;;
        ret (Some ("Successfully updated contact " ++ nm ++ " with status "
                     ++ status_value st ++ "."))
      else upsert_scan rest nm em st
  end.

(** [update_outreach_contact_in_context] *)
Definition update_outreach_contact_in_context
    (nm em : string) (st : Status) : M string :=
  c <- get_ctx ;;
  found <- upsert_scan (outreach_list c) nm em st ;;
  match found with
  | Some msg => ret msg
  | None =>
      t <- now ;;
      new_contact <- alloc (mkOutreachContact nm em st t) ;;
      outreach_list_append new_contact ;;;
      ret ("Successfully added new contact " ++ nm ++ " to outreach list.")
  end.

(* ================================================================== *)
(** ** Weekly supplier report *)

(** [status.replace('_', ' ').title()] *)
Definition humanize (st : Status) : string :=
  title (replace_char "_" " " (status_value st)).

(** The bullet line of one contact. *)
Definition contact_line (c : OutreachContact) (days_since_contact : Z)
  : string :=
  "• " ++ name c ++ " (" ++ email c ++ ") – " ++ humanize (status c)
    ++ " – " ++ str_of_Z days_since_contact ++ " days since last contact".

(** A line of the summary section. *)
Definition summary_line (item : Status * Z) : string :=
  "  - " ++ humanize (fst item) ++ ": " ++ str_of_Z (snd item).

(** A line of the unresponsive section. *)
Definition unresponsive_line (c : OutreachContact) : string :=
  "  • " ++ name c ++ " (" ++ email c ++ ")".

(** The headings of the two closing sections. *)
Definition summary_heading : string := nl ++ "Summary:".

Definition unresponsive_heading : string := nl ++ "Unresponsive Suppliers:".

(** [c.status == "unresponsive"] *)
Definition is_unresponsive (c : OutreachContact) : bool :=
  String.eqb (status_value (status c)) "unresponsive".

(** The first loop of the report: counts per status and one line per
    contact, reading the clock once for every contact. *)
Fixpoint weekly_loop (l : list ref) (status_counts : dict Status Z)
    (lines : list string) : M (dict Status Z * list string) :=
  match l with
  | [] => ret (status_counts, lines)
  | r :: rest =>
      contact <- deref r ;;
      let status_counts' :=
        dict_set Status_eqb status_counts (status contact)
          (dict_get Status_eqb status_counts (status contact) 0 + 1) in
      t <- now ;;
      let days_since_contact := days (t - last_contact_date contact) in
      weekly_loop rest status_counts'
        (lines ++ [contact_line contact days_since_contact])%list
  end.

(** [for x in xs: lines.append(f x)] *)
Definition append_each {A} (f : A -> string) (xs : list A)
    (lines : list string) : list string :=
  fold_left (fun acc x => (acc ++ [f x])%list) xs lines.

(** The list comprehension over the contact objects of the outreach list. *)
Definition select_contacts (p : OutreachContact -> bool)
  : M (list OutreachContact) :=
  fun w => (filter p (contacts w), w).

(** [generate_weekly_supplier_report] *)
Definition generate_weekly_supplier_report : M string :=
  t <- now ;;
  let today := date_str t in
  c <- get_ctx ;;
  report <-
    match outreach_list c with
    | [] =>
        ret ("Weekly Supplier Outreach Report (" ++ today ++ "):" ++ nl ++ nl
               ++ "No supplier outreach activity this week.")
    | _ :: _ =>
        let header := "Weekly Supplier Outreach Report (" ++ today ++ ")" in
        let divider := repeat_str "-" (String.length header) in
        let lines := [header; divider] in
        res <- weekly_loop (outreach_list c) [] lines ;;
        let '(status_counts, lines) := res in
        let lines := (lines ++ [summary_heading])%list in
        let lines := append_each summary_line (dict_items status_counts) lines in
        unresponsive_contacts <- select_contacts is_unresponsive ;;
        let lines :=
          match unresponsive_contacts with
          | [] => lines
          | _ :: _ =>
              append_each unresponsive_line unresponsive_contacts
                (lines ++ [unresponsive_heading])%list
          end in
        ret (join nl lines)
    end ;;
  weekly_report_append report ;;;
  ret report.

(* ================================================================== *)
(** ** Bi-weekly medical trend report *)

(** [d.setdefault(k, default)]: the dictionary afterwards. *)
Definition dict_setdefault {K V} (eqb : K -> K -> bool)
    (d : dict K V) (k : K) (default : V) : dict K V :=
  if dict_mem eqb d k then d else (d ++ [(k, default)])%list.

(** [trend_groups.setdefault(summary.trend, []).append(summary)] *)
Definition group_add (trend_groups : dict string (list MedicalNewsSummary))
    (s : MedicalNewsSummary) : dict string (list MedicalNewsSummary) :=
  let d := dict_setdefault String.eqb trend_groups (trend s) [] in
  dict_set String.eqb d (trend s)
    (dict_get String.eqb d (trend s) [] ++ [s])%list.

(** The grouping loop. *)
Definition group_by_trend (recent_summaries : list MedicalNewsSummary)
  : dict string (list MedicalNewsSummary) :=
  fold_left group_add recent_summaries [].

Definition trend_header (trnd : string) (items : list MedicalNewsSummary)
  : string :=
  nl ++ "Trend: " ++ trnd ++ " – " ++ str_of_Z (Z.of_nat (List.length items))
     ++ " article(s)".

Definition item_line (item : MedicalNewsSummary) : string :=
  "  • " ++ source_email_subject item ++ ": " ++ summary item.

(** The rendering loop over [trend_groups.items()]. *)
Definition render_groups
    (groups : list (string * list MedicalNewsSummary))
    (lines : list string) : list string :=
  fold_left
    (fun acc g => append_each item_line (snd g)
                    (acc ++ [trend_header (fst g) (snd g)])%list)
    groups lines.

(** [s.date >= cutoff] *)
Definition is_recent (cutoff : datetime) (s : MedicalNewsSummary) : bool :=
  (cutoff <=? date s)%Z.

(** [generate_biweekly_medical_trend_report] *)
Definition generate_biweekly_medical_trend_report : M string :=
  t <- now ;;
  let today := date_str t in
  t' <- now ;;
  let cutoff := t' - timedelta_days 14 in
  c <- get_ctx ;;
  let recent_summaries := filter (is_recent cutoff) (medical_summaries c) in
  let report :=
    match recent_summaries with
    | [] =>
        "Bi-Weekly Medical Trends Report (" ++ today ++ "):" ++ nl ++ nl
          ++ "No medical news summaries recorded in the last 14 days."
    | _ :: _ =>
        let header := "Bi-Weekly Medical Trends Report (" ++ today ++ ")" in
        let divider := repeat_str "-" (String.length header) in
        let lines := [header; divider] in
        let trend_groups := group_by_trend recent_summaries in
        join nl (render_groups (dict_items trend_groups) lines)
    end in
  bi_weekly_report_append report ;;;
  ret report.

(* ================================================================== *)
(** ** Mailbox reader and mail-processing phase

    The IMAP library and the agent runner are outside the program.  A
    session with the mail server is given by its outcome; a run of the
    triage agent is a function on worlds that also yields the items of the
    run.  Console output is the list of printed lines. *)

(** A message as the IMAP library presents it. *)
Record Message : Type := mkMessage {
  from_ : string;
  subject : string;
  text : string;
  html : string
}.

(** The outcome of logging in and fetching the unseen messages: either all
    of them, or an [Exception] with text [e] raised after [yielded] were
    fetched (none when connecting or logging in fails). *)
Inductive ImapSession : Type :=
| Fetched (msgs : list Message)
| Failed (yielded : list Message) (e : string).

(** [os.getenv] *)
Definition Environ : Type := string -> option string.

Definition YAHOO_IMAP_SERVER : string := "imap.mail.yahoo.com".

(** [a or b] on strings *)
Definition str_or (a b : string) : string :=
  match a with
  | EmptyString => b
  | String _ _ => a
  end.

(** The dictionary built for one message. *)
Definition email_dict (msg : Message) : dict string string :=
  [("from", from_ msg); ("subject", subject msg);
   ("body", str_or (text msg) (html msg))].

(** [d[k]] for a key the dictionary holds. *)
Definition subscript (d : dict string string) (k : string) : string :=
  dict_get String.eqb d k EmptyString.

(** [not v] for the result of [os.getenv] *)
Definition unset (v : option string) : bool :=
  match v with
  | None => true
  | Some EmptyString => true
  | Some (String _ _) => false
  end.

(** [read_yahoo_emails]: the list of email dictionaries, or an error text. *)
Definition read_yahoo_emails (environ : Environ)
    (login : string -> string -> string -> string -> ImapSession)
  : list (dict string string) + string :=
  let email_address := environ "YAHOO_EMAIL" in
  let password := environ "YAHOO_PASSWORD" in
  match email_address, password with
  | Some address, Some pw =>
      if unset email_address || unset password then
        inr "Error: YAHOO_EMAIL and YAHOO_PASSWORD environment variables are not set."
      else
        match login YAHOO_IMAP_SERVER address pw "INBOX" with
        | Fetched msgs =>
            inl (fold_left (fun emails msg => (emails ++ [email_dict msg])%list)
                           msgs [])
        | Failed _ e =>
            inr ("Error connecting to Yahoo IMAP or fetching emails: " ++ e)
        end
  | _, _ =>
      inr "Error: YAHOO_EMAIL and YAHOO_PASSWORD environment variables are not set."
  end.

(** The items of an agent run, as far as the phase prints them. *)
Inductive RunItem : Type :=
| MessageOutputItem (agent_name message : string)
| HandoffOutputItem (agent_name source_agent target_agent : string)
| ToolCallItem (agent_name : string) (raw_item : string * string + string)
| ToolCallOutputItem (agent_name output : string)
| OtherItem (agent_name class_name : string).

(** The line printed for one item of a run. *)
Definition print_item (new_item : RunItem) : string :=
  match new_item with
  | MessageOutputItem agent_name message => agent_name ++ ": " ++ message
  | HandoffOutputItem _ source target =>
      "HANDOFF: From " ++ source ++ " to " ++ target
  | ToolCallItem agent_name (inl (tool_name, tool_args)) =>
      agent_name ++ ": Calling tool " ++ tool_name ++ "(" ++ tool_args ++ ")"
  | ToolCallItem agent_name (inr type_name) =>
      agent_name ++ ": Calling a non-function tool: " ++ type_name
  | ToolCallOutputItem agent_name output =>
      agent_name ++ ": Tool output: " ++ output
  | OtherItem agent_name class_name =>
      agent_name ++ ": Skipping item: " ++ class_name
  end.

Section MailPhase.

(** [Runner.run(triage_agent, [user message], context=context)]: the items
    of the run and the world the tools left behind. *)
Variable Runner_run : string -> World -> list RunItem * World.

(** The loop over the fetched emails. *)
Fixpoint process_each (emails : list (dict string string)) (out : list string)
    (w : World) : list string * World :=
  match emails with
  | [] => (out, w)
  | email :: rest =>
      let announcement :=
        nl ++ "Processing email from " ++ subscript email "from"
           ++ " with subject: '" ++ subscript email "subject" ++ "'" in
      let out := (out ++ [announcement])%list in
      let email_content :=
        "From: " ++ subscript email "from" ++ nl ++ "Subject: "
          ++ subscript email "subject" ++ nl ++ nl ++ subscript email "body" in
      let '(new_items, w') := Runner_run email_content w in
      process_each rest (out ++ map print_item new_items)%list w'
  end.

(** [process_yahoo_emails]: the printed lines and the world afterwards. *)
Definition process_yahoo_emails (environ : Environ)
    (login : string -> string -> string -> string -> ImapSession)
    (w : World) : list string * World :=
  let out := [nl ++ "--- Task: Processing Yahoo Emails ---"] in
  match read_yahoo_emails environ login with
  | inr new_emails =>
      let failure := "Could not fetch emails: " ++ new_emails in
      ((out ++ [failure])%list, w)
  | inl [] => ((out ++ ["No new emails to process."])%list, w)
  | inl (e :: es) =>
      let new_emails := e :: es in
      let fetched :=
        "Fetched " ++ str_of_Z (Z.of_nat (List.length new_emails))
          ++ " new email(s)." in
      let '(out, w') := process_each new_emails (out ++ [fetched])%list w in
      ((out ++ ["--- Task: Yahoo Emails Complete ---"])%list, w')
  end.

End MailPhase.

(** An environment without the two variables. *)
Definition no_credentials : Environ := fun _ => None.

(** An environment with both variables set. *)
Definition with_credentials : Environ :=
  fun k => if String.eqb k "YAHOO_EMAIL" then Some "agent@yahoo.com"
           else if String.eqb k "YAHOO_PASSWORD" then Some "app-password"
           else None.

(** A server that refuses the login. *)
Definition refusing_server (host user pw folder : string) : ImapSession :=
  Failed [] "authentication failed".

(** A runner that does nothing. *)
Definition idle_runner (input : string) (w : World) : list RunItem * World :=
  ([], w).

(* ================================================================== *)
(** ** Response drafting *)

(** [draft_response]: the line printed and the draft returned.  The slice
    [email_body[:50]] counts characters. *)
Definition draft_response (email_body : string) : list string * string :=
  (["TOOL: Drafting a response..."],
   "This is a drafted response to:" ++ nl ++ "---" ++ nl
     ++ substring 0 50 email_body ++ "..." ++ nl ++ "---").

(* ================================================================== *)
(** ** Supplier outreach phase

    [manage_supplier_outreach] hands prompts to the outreach agent.  A run
    of the agent is a function on worlds; its result is discarded.  The
    follow-up loop iterates over the live outreach list, which a run of the
    agent may extend, so the loop is indexed and takes fuel. *)

Definition new_suppliers : list (dict string string) :=
  [[("name", "Innovate MedTech"); ("email", "contact@innovatemed.com")];
   [("name", "Global Pharma"); ("email", "inquiries@globalpharma.com")]].

(** [contact.status == "initial_sent" and days_since_contact >= 2] *)
Definition needs_follow_up (today : datetime) (contact : OutreachContact)
  : bool :=
  let days_since_contact := days (today - last_contact_date contact) in
  String.eqb (status_value (status contact)) "initial_sent"
  && (2 <=? days_since_contact)%Z.

Section OutreachPhase.

(** [Runner.run(supplier_outreach_agent, [user prompt], context=context)] *)
Variable Runner_run : string -> World -> World.

(** The loop over [new_suppliers]. *)
Fixpoint contact_new_suppliers (suppliers : list (dict string string))
    (out : list string) (w : World) : list string * World :=
  match suppliers with
  | [] => (out, w)
  | supplier :: rest =>
      let is_new :=
        negb (existsb (fun c => String.eqb (email c)
                                  (subscript supplier "email"))
                      (contacts w)) in
      if is_new then
        let found :=
          "New supplier found: " ++ subscript supplier "name"
            ++ ". Initiating outreach." in
        let prompt :=
          "Contact the new supplier named '" ++ subscript supplier "name"
            ++ "' at the email address '" ++ subscript supplier "email"
            ++ "'." in
        contact_new_suppliers rest (out ++ [found])%list
          (Runner_run prompt w)
      else contact_new_suppliers rest out w
  end.

(** The loop over the outreach list, at index [i]. *)
Fixpoint follow_up_loop (fuel i : nat) (today : datetime)
    (out : list string) (w : World) : option (list string * World) :=
  match fuel with
  | O => None
  | S fuel' =>
      match nth_error (outreach_list (ctx w)) i with
      | None => Some (out, w)
      | Some r =>
          let contact := objs w r in
          if needs_follow_up today contact then
            let sending :=
              "Contact " ++ name contact
                ++ " needs a 2-day follow-up. Sending..." in
            let prompt :=
              "Send a 2-day follow-up email to '" ++ name contact ++ "' at '"
                ++ email contact ++ "'. "
                ++ "Keep it brief and friendly, just checking in on our previous message." in
            follow_up_loop fuel' (S i) today (out ++ [sending])%list
              (Runner_run prompt w)
          else follow_up_loop fuel' (S i) today out w
      end
  end.

(** [manage_supplier_outreach]: the printed lines and the world afterwards,
    or [None] when the fuel does not cover the follow-up loop. *)
Definition manage_supplier_outreach (fuel : nat) (w : World)
  : option (list string * World) :=
  let out := [nl ++ "--- Task: Managing Supplier Outreach ---"] in
  let '(out, w) := contact_new_suppliers new_suppliers out w in
  let '(today, w) := now w in
  match follow_up_loop fuel 0 today out w with
  | None => None
  | Some (out, w) =>
      Some ((out ++ ["--- Task: Supplier Outreach Complete ---"])%list, w)
  end.

End OutreachPhase.

(* ================================================================== *)
(** ** Vocabulary of the statements *)

(** The first reference of [l] whose contact carries the email [em]. *)
Definition first_match (w : World) (em : string) (l : list ref)
  : option ref :=
  find (fun r => String.eqb (email (objs w r)) em) l.

(** The world after the contact at [r] received status [st] at the current
    clock reading: one object changed, one reading consumed. *)
Definition contact_updated (w w' : World) (r : ref) (st : Status) : Prop :=
  objs w' r = mkOutreachContact (name (objs w r)) (email (objs w r)) st
                                (clock w (ticks w))
  /\ (forall r', r' <> r -> objs w' r' = objs w r')
  /\ next_ref w' = next_ref w
  /\ ctx w' = ctx w
  /\ clock w' = clock w
  /\ ticks w' = S (ticks w).

Definition updated_text (nm : string) (st : Status) : string :=
  "Successfully updated contact " ++ nm ++ " with status "
    ++ status_value st ++ ".".

Definition added_text (nm : string) : string :=
  "Successfully added new contact " ++ nm ++ " to outreach list.".

(** An email occurs at most once in a list of emails. *)
Fixpoint distinct (l : list string) : bool :=
  match l with
  | [] => true
  | x :: xs => negb (existsb (String.eqb x) xs) && distinct xs
  end.

(** At most one contact per email address on the outreach list. *)
Definition unique_emails (w : World) : bool :=
  distinct (map email (contacts w)).

(** ** Sample worlds *)

Definition blank_contact : OutreachContact :=
  mkOutreachContact EmptyString EmptyString initial_sent 0.

(** 2026-11-03T12:00:00 and one microsecond per reading. *)
Definition sample_clock (n : nat) : datetime :=
  63929304000000000 + Z.of_nat n.

(** The context at the start of a run. *)
Definition empty_world : World :=
  mkWorld (fun _ => blank_contact) 0%nat (mkEmailAgentContext [] [] [] [])
          sample_clock 0%nat.

(** Two suppliers contacted. *)
Definition two_contacts_world : World :=
  snd ((update_outreach_contact_in_context
          "Acme Medical" "sales@acmemed.com" initial_sent ;;;
        update_outreach_contact_in_context
          "Global Pharma" "inquiries@globalpharma.com" unresponsive)
         empty_world).

(** ** Anatomy of the weekly report *)

(** The world after [n] more clock readings. *)
Definition advance (n : nat) (w : World) : World :=
  mkWorld (objs w) (next_ref w) (ctx w) (clock w) (ticks w + n).

(** The contact lines, the [k]-th contact dated against reading [n + k]. *)
Fixpoint contact_lines (clk : nat -> datetime) (n : nat)
    (cs : list OutreachContact) : list string :=
  match cs with
  | [] => []
  | c :: cs' =>
      contact_line c (days (clk n - last_contact_date c))
        :: contact_lines clk (S n) cs'
  end.

(** One step of the counting loop. *)
Definition count_step (d : dict Status Z) (c : OutreachContact)
  : dict Status Z :=
  dict_set Status_eqb d (status c) (dict_get Status_eqb d (status c) 0 + 1).

(** The dictionary [status_counts] when the first loop has finished. *)
Definition weekly_status_counts (w : World) : dict Status Z :=
  fold_left count_step (contacts w) [].

Definition weekly_header (w : World) : string :=
  "Weekly Supplier Outreach Report (" ++ date_str (clock w (ticks w)) ++ ")".

(** Header, divider and one line per contact. *)
Definition weekly_head_lines (w : World) : list string :=
  [weekly_header w; repeat_str "-" (String.length (weekly_header w))]
    ++ contact_lines (clock w) (S (ticks w)) (contacts w).

(** Everything up to the end of the summary section. *)
Definition weekly_body_lines (w : World) : list string :=
  weekly_head_lines w ++ [summary_heading]
    ++ map summary_line (weekly_status_counts w).

Definition weekly_unresponsive_section (w : World) : list string :=
  match filter is_unresponsive (contacts w) with
  | [] => []
  | c :: cs => unresponsive_heading :: map unresponsive_line (c :: cs)
  end.

Definition weekly_empty_text (w : World) : string :=
  "Weekly Supplier Outreach Report (" ++ date_str (clock w (ticks w)) ++ "):"
    ++ nl ++ nl ++ "No supplier outreach activity this week.".

Definition weekly_report_text (w : World) : string :=
  match outreach_list (ctx w) with
  | [] => weekly_empty_text w
  | _ :: _ => join nl (weekly_body_lines w ++ weekly_unresponsive_section w)
  end.

(** The elements of [l] in order of first occurrence. *)
Fixpoint first_seen {K} (eqb : K -> K -> bool) (l : list K) : list K :=
  match l with
  | [] => []
  | x :: xs => x :: filter (fun y => negb (eqb x y)) (first_seen eqb xs)
  end.

(** Sum of a list of integers. *)
Definition total (l : list Z) : Z := fold_right Z.add 0 l.

(** ** Grouping folds

    Both reports fold a list into an insertion-ordered dictionary: each item
    updates the entry of its key, starting from a default when the key is
    new. *)

Section GroupFold.

Context {K A V : Type}.
Variable eqb : K -> K -> bool.
Variable key : A -> K.
Variable g : A -> V -> V.
Variable dflt : V.

(** One step: [d[key x] = g x (d.get(key x, dflt))]. *)
Definition upd_step (d : dict K V) (x : A) : dict K V :=
  dict_set eqb d (key x) (g x (dict_get eqb d (key x) dflt)).

(** The value an entry reaches: the items of that key, folded in order. *)
Definition group_value (k : K) (xs : list A) : V :=
  fold_left (fun v x => g x v) (filter (fun x => eqb k (key x)) xs) dflt.

End GroupFold.

(** The number of contacts of [cs] whose status is [st]. *)
Definition status_count (st : Status) (cs : list OutreachContact) : Z :=
  Z.of_nat (List.length (filter (fun c => Status_eqb st (status c)) cs)).

(** ** Anatomy of the bi-weekly report *)

(** The cutoff of a report generated in [w]: fourteen days before the second
    clock reading of the call (the first reading dates the header). *)
Definition biweekly_cutoff (w : World) : datetime :=
  clock w (S (ticks w)) - timedelta_days 14.

Definition recent_summaries (w : World) : list MedicalNewsSummary :=
  filter (is_recent (biweekly_cutoff w)) (medical_summaries (ctx w)).

Definition biweekly_header (w : World) : string :=
  "Bi-Weekly Medical Trends Report (" ++ date_str (clock w (ticks w)) ++ ")".

Definition biweekly_empty_text (w : World) : string :=
  "Bi-Weekly Medical Trends Report (" ++ date_str (clock w (ticks w)) ++ "):"
    ++ nl ++ nl ++ "No medical news summaries recorded in the last 14 days.".

(** The lines of one trend group: its header, then its items. *)
Definition group_lines (g : string * list MedicalNewsSummary)
  : list string :=
  trend_header (fst g) (snd g) :: map item_line (snd g).

Definition biweekly_report_text (w : World) : string :=
  match recent_summaries w with
  | [] => biweekly_empty_text w
  | _ :: _ =>
      join nl ([biweekly_header w;
                repeat_str "-" (String.length (biweekly_header w))]
                 ++ flat_map group_lines
                      (group_by_trend (recent_summaries w)))
  end.

(** The summaries of trend [t] among [l], in the order of [l]. *)
Definition with_trend (t : string) (l : list MedicalNewsSummary)
  : list MedicalNewsSummary :=
  filter (fun s => String.eqb t (trend s)) l.

(** Three summaries, two trends that differ in case only. *)
Definition three_summaries_world : World :=
  snd ((add_medical_summary_to_context
          "Breakthrough Therapy X" "A new therapy shows promise in trials."
          "Gene Therapy" ;;;
        add_medical_summary_to_context
          "Vector news" "Delivery vectors improve." "gene therapy" ;;;
        add_medical_summary_to_context
          "Trial update" "Second trial confirms." "Gene Therapy")
         empty_world).

(** Summaries dated around the cutoff of a report generated at readings 0
    and 1 of the sample clock. *)
Definition on_boundary : MedicalNewsSummary :=
  mkMedicalNewsSummary "On the boundary" "Fourteen days old." "Imaging"
    (sample_clock 1 - timedelta_days 14).

Definition past_boundary : MedicalNewsSummary :=
  mkMedicalNewsSummary "Past the boundary" "A microsecond older." "Imaging"
    (sample_clock 1 - timedelta_days 14 - 1).

Definition twenty_days_old : MedicalNewsSummary :=
  mkMedicalNewsSummary "Old news" "Twenty days old." "Imaging"
    (sample_clock 1 - timedelta_days 20).

Definition window_world : World :=
  mkWorld (fun _ => blank_contact) 0%nat
    (mkEmailAgentContext []
       [twenty_days_old; on_boundary; past_boundary] [] [])
    sample_clock 0%nat.

(** ** Sequences of context operations

    The four tools that work on the context, as the agents may call them in
    any order during a run. *)

Inductive Op : Type :=
| OpUpsert (nm em : string) (st : Status)
| OpAddSummary (subject summ trnd : string)
| OpWeeklyReport
| OpBiweeklyReport.

Definition run_op (op : Op) : M string :=
  match op with
  | OpUpsert nm em st => update_outreach_contact_in_context nm em st
  | OpAddSummary subject summ trnd =>
      add_medical_summary_to_context subject summ trnd
  | OpWeeklyReport => generate_weekly_supplier_report
  | OpBiweeklyReport => generate_biweekly_medical_trend_report
  end.

(** The world after the operations of [ops], first to last. *)
Fixpoint run_ops (ops : list Op) (w : World) : World :=
  match ops with
  | [] => w
  | op :: rest => run_ops rest (snd (run_op op w))
  end.

(** The kinds of operation, for counting them in a run. *)
Definition is_upsert (op : Op) : bool :=
  match op with OpUpsert _ _ _ => true | _ => false end.

Definition is_add_summary (op : Op) : bool :=
  match op with OpAddSummary _ _ _ => true | _ => false end.

Definition is_weekly_report (op : Op) : bool :=
  match op with OpWeeklyReport => true | _ => false end.

Definition is_biweekly_report (op : Op) : bool :=
  match op with OpBiweeklyReport => true | _ => false end.

(** How many operations of [ops] satisfy [p]. *)
Definition count_ops (p : Op -> bool) (ops : list Op) : nat :=
  List.length (filter p ops).

(** ** Vocabulary of the mail phase *)

(** Both credentials are set to non-empty strings. *)
Definition credentials (environ : Environ) (address pw : string) : Prop :=
  environ "YAHOO_EMAIL" = Some address
  /\ environ "YAHOO_PASSWORD" = Some pw
  /\ address <> EmptyString
  /\ pw <> EmptyString.

(** The text handed to the triage agent for one email. *)
Definition email_content (email : dict string string) : string :=
  "From: " ++ subscript email "from" ++ nl ++ "Subject: "
    ++ subscript email "subject" ++ nl ++ nl ++ subscript email "body".

(** A server with two unseen messages, one with a text part and one with
    HTML only. *)
Definition two_messages : list Message :=
  [mkMessage "news@journal.org" "Trial results" "Plain text." "<p>Markup</p>";
   mkMessage "sales@acmemed.com" "Re: Partnership" EmptyString "<p>Hello</p>"].

Definition serving_two (host user pw folder : string) : ImapSession :=
  Fetched two_messages.

(** A server whose connection drops after the first message. *)
Definition dropping_server (host user pw folder : string) : ImapSession :=
  Failed [mkMessage "news@journal.org" "Trial results" "Plain text."
            EmptyString]
         "connection reset".

(** An empty inbox. *)
Definition empty_inbox (host user pw folder : string) : ImapSession :=
  Fetched [].

(** A runner that files every email as a medical summary. *)
Definition filing_runner (input : string) (w : World)
  : list RunItem * World :=
  ([ToolCallItem "Medical News Agent"
      (inl ("add_medical_summary_to_context", input))],
   snd (add_medical_summary_to_context input "summary" "trend" w)).

(** The opening lines of the mail phase when [n] emails were fetched. *)
Definition yahoo_banner : string :=
  nl ++ "--- Task: Processing Yahoo Emails ---".

Definition fetched_line (n : nat) : string :=
  "Fetched " ++ str_of_Z (Z.of_nat n) ++ " new email(s).".

(** ** Vocabulary of the drafting and outreach properties *)

(** Every character is in the ASCII range. *)
Fixpoint is_ascii_text (s : string) : bool :=
  match s with
  | EmptyString => true
  | String c s' => (nat_of_ascii c <? 128)%nat && is_ascii_text s'
  end.

(** Both suppliers of the list contacted a moment ago. *)
Definition suppliers_contacted_world : World :=
  snd ((update_outreach_contact_in_context
          "Innovate MedTech" "contact@innovatemed.com" initial_sent ;;;
        update_outreach_contact_in_context
          "Global Pharma" "inquiries@globalpharma.com" initial_sent)
         empty_world).

(** An outreach agent that logs a reply for whatever it is asked. *)
Definition restless_runner (prompt : string) (w : World) : World :=
  snd (update_outreach_contact_in_context prompt prompt replied w).

(** An outreach agent that only asks for the weekly report. *)
Definition reporting_runner (prompt : string) (w : World) : World :=
  snd (generate_weekly_supplier_report w).

(** One contact, first written to three days before the sample clock
    starts. *)
Definition overdue_world : World :=
  mkWorld
    (fun _ => mkOutreachContact "Innovate MedTech" "contact@innovatemed.com"
                initial_sent (sample_clock 0 - timedelta_days 3))
    1%nat (mkEmailAgentContext [0%nat] [] [] []) sample_clock 0%nat.

(** ** Report text, written out

    What the statements compare the report texts with: literal strings and
    the standard library's decimal printer, none of them a rendering helper
    of the generators. *)

(** The line feed. *)
Definition LF : string := String "010"%char EmptyString.

(** The five statuses as the reports print them. *)
Definition status_label (st : Status) : string :=
  match st with
  | initial_sent => "Initial Sent"
  | follow_up_1_sent => "Follow Up 1 Sent"
  | follow_up_2_sent => "Follow Up 2 Sent"
  | replied => "Replied"
  | unresponsive => "Unresponsive"
  end.

(** An integer in decimal. *)
Definition decimal (n : Z) : string := NilZero.string_of_int (Z.to_int n).

(** Three summaries around a report generated at reading 1 of the sample
    clock, 63929304000000001: one a microsecond older than fourteen days,
    one exactly fourteen days old, one dated five days after the reading. *)
Definition stale_summary : MedicalNewsSummary :=
  mkMedicalNewsSummary "Stale note" "Just too old." "Imaging"
    63928094400000000.

Definition edge_summary : MedicalNewsSummary :=
  mkMedicalNewsSummary "Edge note" "Exactly fourteen days old." "Imaging"
    63928094400000001.

Definition postdated_summary : MedicalNewsSummary :=
  mkMedicalNewsSummary "Postdated note" "Dated five days ahead." "Genomics"
    63929736000000001.

Definition dated_world : World :=
  mkWorld (fun _ => blank_contact) 0%nat
    (mkEmailAgentContext []
       [stale_summary; edge_summary; postdated_summary] [] [])
    sample_clock 0%nat.

(* ================================================================== *)
(** * Properties *)

(** ** Contact upsert *)

Lemma first_match_some w em l r :
  first_match w em l = Some r -> In r l /\ email (objs w r) = em.
Proof.
  unfold first_match. intros H. apply find_some in H.
  destruct H as [Hin Heq]. split; [exact Hin|].
  now apply String.eqb_eq.
Qed.

Lemma first_match_none w em l :
  first_match w em l = None <->
  (forall c, In c (map (objs w) l) -> email c <> em).
Proof.
  unfold first_match. split.
  - intros H c Hc. apply in_map_iff in Hc. destruct Hc as [r [<- Hr]].
    pose proof (find_none _ _ H r Hr) as Hn. simpl in Hn.
    now apply String.eqb_neq.
  - intros H. induction l as [|r l IH]; simpl; [reflexivity|].
    destruct (String.eqb (email (objs w r)) em) eqn:E.
    + apply String.eqb_eq in E. exfalso.
      apply (H (objs w r)); [simpl; now left | exact E].
    + apply IH. intros c Hc. apply H. simpl. now right.
Qed.

Lemma first_match_exists w em l :
  (exists c, In c (map (objs w) l) /\ email c = em) ->
  exists r, first_match w em l = Some r.
Proof.
  intros [c [Hc He]]. destruct (first_match w em l) as [r|] eqn:E.
  - now exists r.
  - exfalso. rewrite first_match_none in E. exact (E c Hc He).
Qed.

Lemma upsert_scan_found l : forall w nm em st r,
  first_match w em l = Some r ->
  exists w', upsert_scan l nm em st w = (Some (updated_text nm st), w')
             /\ contact_updated w w' r st.
Proof.
  induction l as [|r0 l IH]; intros w nm em st r H; [discriminate|].
  unfold first_match in H. simpl in H. simpl.
  unfold bind at 1. unfold deref at 1.
  destruct (String.eqb (email (objs w r0)) em) eqn:E.
  - injection H as <-. eexists. split; [reflexivity|].
    unfold contact_updated. simpl. rewrite Nat.eqb_refl.
    repeat split; try reflexivity.
    intros r' Hne. apply Nat.eqb_neq in Hne. now rewrite Hne.
  - now apply IH.
Qed.

Lemma upsert_scan_not_found l : forall w nm em st,
  first_match w em l = None ->
  upsert_scan l nm em st w = (None, w).
Proof.
  induction l as [|r0 l IH]; intros w nm em st H; [reflexivity|].
  unfold first_match in H. simpl in H. simpl.
  unfold bind at 1. unfold deref at 1.
  destruct (String.eqb (email (objs w r0)) em) eqn:E; [discriminate|].
  now apply IH.
Qed.

(** The upsert when the email is already on the list. *)
Lemma upsert_existing w nm em st r :
  first_match w em (outreach_list (ctx w)) = Some r ->
  exists w', update_outreach_contact_in_context nm em st w
               = (updated_text nm st, w')
             /\ contact_updated w w' r st.
Proof.
  intros H. destruct (upsert_scan_found _ w nm em st r H) as [w' [Hs Hu]].
  exists w'. split; [|exact Hu].
  unfold update_outreach_contact_in_context, bind, get_ctx.
  now rewrite Hs.
Qed.

(** The upsert when the email is new. *)
Lemma upsert_new w nm em st :
  first_match w em (outreach_list (ctx w)) = None ->
  update_outreach_contact_in_context nm em st w =
  (added_text nm,
   mkWorld (fun r' => if (r' =? next_ref w)%nat
                      then mkOutreachContact nm em st (clock w (ticks w))
                      else objs w r')
           (S (next_ref w))
           (mkEmailAgentContext (outreach_list (ctx w) ++ [next_ref w])
              (medical_summaries (ctx w)) (weekly_report (ctx w))
              (bi_weekly_report (ctx w)))
           (clock w) (S (ticks w))).
Proof.
  intros H.
  unfold update_outreach_contact_in_context, bind, get_ctx.
  now rewrite (upsert_scan_not_found _ w nm em st H).
Qed.

Lemma wf_spec w :
  wf w = true <-> (forall r, In r (outreach_list (ctx w)) -> (r < next_ref w)%nat).
Proof.
  unfold wf. rewrite forallb_forall. split; intros H r Hr.
  - now apply Nat.ltb_lt, H.
  - now apply Nat.ltb_lt, H.
Qed.

(** Objects that agree on the list give the same contacts. *)
Lemma map_objs_ext (f g : ref -> OutreachContact) l :
  (forall r, In r l -> f r = g r) -> map f l = map g l.
Proof. intros H. now apply map_ext_in. Qed.

(** A new contact lands at the end of the contacts and leaves the contacts
    before it as they were. *)
Lemma upsert_new_contacts w nm em st :
  wf w = true ->
  first_match w em (outreach_list (ctx w)) = None ->
  contacts (snd (update_outreach_contact_in_context nm em st w))
  = (contacts w ++ [mkOutreachContact nm em st (clock w (ticks w))])%list.
Proof.
  intros Hwf Hnone. rewrite (upsert_new w nm em st Hnone).
  unfold contacts. cbn [snd objs ctx outreach_list].
  rewrite map_app. cbn [map]. rewrite Nat.eqb_refl. f_equal.
  apply map_objs_ext. intros r Hr.
  apply wf_spec with (r := r) in Hwf; [|exact Hr].
  destruct (Nat.eqb_spec r (next_ref w)); [lia | reflexivity].
Qed.

Lemma upsert_new_wf w nm em st :
  wf w = true ->
  first_match w em (outreach_list (ctx w)) = None ->
  wf (snd (update_outreach_contact_in_context nm em st w)) = true.
Proof.
  intros Hwf Hnone. rewrite (upsert_new w nm em st Hnone).
  apply wf_spec. cbn [snd ctx outreach_list next_ref].
  intros r Hr. apply in_app_or in Hr. destruct Hr as [Hr | [<- | []]].
  - apply wf_spec with (r := r) in Hwf; [lia | exact Hr].
  - lia.
Qed.

(** C1: an upsert with an email that no record carries appends exactly one
    record with the given name, email and status and the current time; an
    upsert with an email that some record carries leaves the list of records
    as it is (same objects, same length) and changes only the status and the
    last contact date of the first record with that email, in the object
    itself. *)
Theorem upsert_contact_appends_or_updates
    (w : World) (nm em : string) (st : Status) :
  wf w = true ->
  let w' := snd (update_outreach_contact_in_context nm em st w) in
  let t := clock w (ticks w) in
  ((forall c, In c (contacts w) -> email c <> em) ->
     outreach_list (ctx w') = (outreach_list (ctx w) ++ [next_ref w])%list
     /\ contacts w' = (contacts w ++ [mkOutreachContact nm em st t])%list
     /\ List.length (contacts w') = S (List.length (contacts w)))
  /\
  ((exists c, In c (contacts w) /\ email c = em) ->
     exists r,
       first_match w em (outreach_list (ctx w)) = Some r
       /\ outreach_list (ctx w') = outreach_list (ctx w)
       /\ List.length (contacts w') = List.length (contacts w)
       /\ objs w' r = mkOutreachContact (name (objs w r)) (email (objs w r))
                                        st t
       /\ (forall r', r' <> r -> objs w' r' = objs w r')).
Proof.
  intros Hwf w' t. split.
  - intros Hnone. apply first_match_none in Hnone.
    pose proof (upsert_new_contacts w nm em st Hwf Hnone) as Hc.
    fold w' in Hc. fold t in Hc.
    split; [|split; [exact Hc|]].
    + subst w'. now rewrite (upsert_new w nm em st Hnone).
    + rewrite Hc, length_app. simpl. lia.
  - intros Hex. destruct (first_match_exists _ _ _ Hex) as [r Hr].
    exists r. split; [exact Hr|].
    destruct (upsert_existing w nm em st r Hr) as [w1 [Hrun Hupd]].
    subst w'. rewrite Hrun. simpl.
    destruct Hupd as (Hobj & Hframe & _ & Hctx & _ & _).
    split; [now rewrite Hctx|].
    split; [unfold contacts; now rewrite !length_map, Hctx|].
    split; [exact Hobj | exact Hframe].
Qed.

Lemma upsert_contact_appends_or_updates_witness :
  wf two_contacts_world = true
  /\ contacts (snd (update_outreach_contact_in_context
                      "Innovate MedTech" "contact@innovatemed.com"
                      initial_sent two_contacts_world))
     = (contacts two_contacts_world
          ++ [mkOutreachContact "Innovate MedTech" "contact@innovatemed.com"
                initial_sent (sample_clock 2)])%list.
Proof.
  split; [reflexivity|].
  apply (upsert_contact_appends_or_updates two_contacts_world
           "Innovate MedTech" "contact@innovatemed.com" initial_sent);
    [reflexivity|].
  intros c Hc. simpl in Hc.
  destruct Hc as [<- | [<- | []]]; simpl; discriminate.
Defined.

(** C10: when the email already belongs to a record, the upsert leaves the
    stored name (and email) of that record as they were, sets only its
    status and last contact date, and the text it returns carries the name
    passed to the call. *)
Theorem upsert_existing_keeps_stored_name
    (w : World) (nm em : string) (st : Status) (r : ref) :
  first_match w em (outreach_list (ctx w)) = Some r ->
  let res := update_outreach_contact_in_context nm em st w in
  name (objs (snd res) r) = name (objs w r)
  /\ email (objs (snd res) r) = email (objs w r)
  /\ status (objs (snd res) r) = st
  /\ last_contact_date (objs (snd res) r) = clock w (ticks w)
  /\ fst res = "Successfully updated contact " ++ nm ++ " with status "
                 ++ status_value st ++ ".".
Proof.
  intros Hr res.
  destruct (upsert_existing w nm em st r Hr) as [w1 [Hrun Hupd]].
  subst res. rewrite Hrun. cbn [fst snd].
  destruct Hupd as (Hobj & _). rewrite Hobj. cbn [name email status last_contact_date].
  repeat split; reflexivity.
Qed.

Lemma upsert_existing_keeps_stored_name_witness :
  first_match two_contacts_world "sales@acmemed.com"
    (outreach_list (ctx two_contacts_world)) = Some 0%nat
  /\ name (objs (snd (update_outreach_contact_in_context
                        "ACME Corp" "sales@acmemed.com" replied
                        two_contacts_world)) 0%nat) = "Acme Medical"
  /\ fst (update_outreach_contact_in_context
            "ACME Corp" "sales@acmemed.com" replied two_contacts_world)
     = "Successfully updated contact ACME Corp with status replied.".
Proof.
  split; [reflexivity|].
  pose proof (upsert_existing_keeps_stored_name two_contacts_world
                "ACME Corp" "sales@acmemed.com" replied 0%nat eq_refl) as H.
  destruct H as (Hname & _ & _ & _ & Htext).
  split; [exact Hname | exact Htext].
Defined.

(** *** Substring facts for the confirmation texts *)

Lemma append_assoc (a b c : string) : (a ++ b) ++ c = a ++ b ++ c.
Proof. induction a as [|x a IH]; simpl; [reflexivity | now rewrite IH]. Qed.

Lemma prefix_app s t : String.prefix s (s ++ t) = true.
Proof.
  induction s as [|c s IH]; simpl; [now destruct t|].
  destruct (ascii_dec c c) as [_|n]; [exact IH | now elim n].
Qed.

Lemma contains_here s t : contains s (s ++ t) = true.
Proof.
  destruct s as [|c s'].
  - destruct t; reflexivity.
  - change (String c s' ++ t) with (String c (s' ++ t)). cbn [contains].
    change (String c (s' ++ t)) with (String c s' ++ t).
    now rewrite prefix_app.
Qed.

Lemma contains_app s a t : contains s (a ++ s ++ t) = true.
Proof.
  induction a as [|c a IH].
  - change (EmptyString ++ s ++ t) with (s ++ t). apply contains_here.
  - change (String c a ++ s ++ t) with (String c (a ++ s ++ t)).
    cbn [contains]. rewrite IH. apply orb_true_r.
Qed.

(** C8, as the code has it: the text returned by the upsert is
    [Successfully updated contact NAME with status STATUS.] when the email
    was on the list, and [Successfully added new contact NAME to outreach
    list.] when it was not.  The name occurs in both; the status occurs in
    the text of the update branch. *)
Theorem upsert_confirmation_text (w : World) (nm em : string) (st : Status) :
  let res := fst (update_outreach_contact_in_context nm em st w) in
  match first_match w em (outreach_list (ctx w)) with
  | Some _ =>
      res = "Successfully updated contact " ++ nm ++ " with status "
              ++ status_value st ++ "."
      /\ contains nm res = true
      /\ contains (status_value st) res = true
  | None =>
      res = "Successfully added new contact " ++ nm ++ " to outreach list."
      /\ contains nm res = true
  end.
Proof.
  intros res. subst res.
  destruct (first_match w em (outreach_list (ctx w))) as [r|] eqn:E.
  - destruct (upsert_existing w nm em st r E) as [w1 [Hrun _]].
    rewrite Hrun. cbn [fst]. unfold updated_text.
    split; [reflexivity|]. split.
    + apply (contains_app nm "Successfully updated contact ").
    + rewrite <- (append_assoc nm), <- append_assoc.
      apply contains_app.
  - rewrite (upsert_new w nm em st E). cbn [fst]. unfold added_text.
    split; [reflexivity|].
    apply (contains_app nm "Successfully added new contact ").
Qed.

(** C8 fails in the append branch: the text returned for a new contact
    names the contact and not the status, neither as the value passed nor
    in its title-cased form. *)
Lemma upsert_new_contact_text_omits_status :
  let res := fst (update_outreach_contact_in_context
                    "Acme Medical" "sales@acmemed.com" initial_sent
                    empty_world) in
  res = "Successfully added new contact Acme Medical to outreach list."
  /\ contains "Acme Medical" res = true
  /\ contains (status_value initial_sent) res = false
  /\ contains (humanize initial_sent) res = false.
Proof. repeat split; reflexivity. Qed.

(** ** Weekly supplier report *)

Lemma advance_0 w : advance 0 w = w.
Proof. destruct w. unfold advance. simpl. now rewrite Nat.add_0_r. Qed.

Lemma append_each_spec {A} (f : A -> string) xs : forall lines,
  append_each f xs lines = (lines ++ map f xs)%list.
Proof.
  unfold append_each. induction xs as [|x xs IH]; intros lines; simpl.
  - now rewrite app_nil_r.
  - rewrite IH, <- app_assoc. reflexivity.
Qed.

Lemma unresponsive_tail (lines : list string) (u : list OutreachContact) :
  match u with
  | [] => lines
  | _ :: _ =>
      append_each unresponsive_line u (lines ++ [unresponsive_heading])%list
  end
  = (lines ++ match u with
              | [] => []
              | c :: cs => unresponsive_heading :: map unresponsive_line (c :: cs)
              end)%list.
Proof.
  destruct u as [|c cs].
  - now rewrite app_nil_r.
  - rewrite append_each_spec, <- app_assoc. reflexivity.
Qed.

Lemma weekly_loop_spec l : forall sc lines w,
  weekly_loop l sc lines w =
  ((fold_left count_step (map (objs w) l) sc,
    (lines ++ contact_lines (clock w) (ticks w) (map (objs w) l))%list),
   advance (List.length l) w).
Proof.
  induction l as [|r l IH]; intros sc lines w.
  - simpl. unfold ret. now rewrite app_nil_r, advance_0.
  - cbn [weekly_loop]. unfold bind at 1. unfold deref at 1.
    unfold bind at 1. unfold now at 1.
    rewrite IH. cbn [objs clock ticks map fold_left contact_lines List.length].
    rewrite <- app_assoc. unfold advance. cbn [objs next_ref ctx clock ticks].
    replace (S (ticks w) + List.length l)%nat
      with (ticks w + S (List.length l))%nat by lia.
    reflexivity.
Qed.

(** The report generator in closed form: the text, and a world that differs
    only in the report history and the clock readings taken. *)
Lemma generate_weekly_spec w :
  generate_weekly_supplier_report w =
  (weekly_report_text w,
   mkWorld (objs w) (next_ref w)
     (mkEmailAgentContext (outreach_list (ctx w)) (medical_summaries (ctx w))
        (weekly_report (ctx w) ++ [weekly_report_text w])
        (bi_weekly_report (ctx w)))
     (clock w) (S (ticks w + List.length (outreach_list (ctx w))))).
Proof.
  unfold generate_weekly_supplier_report, weekly_report_text,
    weekly_empty_text, weekly_body_lines, weekly_head_lines,
    weekly_unresponsive_section, weekly_status_counts, weekly_header,
    weekly_report_append, select_contacts, contacts, dict_items,
    bind, now, get_ctx, ret, put_ctx.
  cbn [ctx objs clock ticks next_ref].
  destruct (outreach_list (ctx w)) as [|r l] eqn:E.
  - cbn [ctx objs clock ticks next_ref outreach_list medical_summaries
         weekly_report bi_weekly_report List.length].
    rewrite Nat.add_0_r, ?E. reflexivity.
  - rewrite weekly_loop_spec. unfold advance.
    cbn [ctx objs clock ticks next_ref outreach_list medical_summaries
         weekly_report bi_weekly_report].
    rewrite ?E, append_each_spec, unresponsive_tail, <- !app_assoc.
    replace (S (ticks w) + List.length (r :: l))%nat
      with (S (ticks w + List.length (r :: l)))%nat by lia.
    reflexivity.
Qed.

(** C4: one call of the weekly report generator appends exactly one entry,
    the text it returns, to the weekly report history; this holds for an
    empty and for a non-empty outreach list, and the rest of the context is
    untouched. *)
Theorem weekly_report_appends_returned_text (w : World) :
  let res := generate_weekly_supplier_report w in
  weekly_report (ctx (snd res)) = (weekly_report (ctx w) ++ [fst res])%list
  /\ List.length (weekly_report (ctx (snd res)))
     = S (List.length (weekly_report (ctx w)))
  /\ outreach_list (ctx (snd res)) = outreach_list (ctx w)
  /\ medical_summaries (ctx (snd res)) = medical_summaries (ctx w)
  /\ bi_weekly_report (ctx (snd res)) = bi_weekly_report (ctx w).
Proof.
  intros res. subst res. rewrite generate_weekly_spec.
  cbn [fst snd ctx outreach_list medical_summaries weekly_report
       bi_weekly_report].
  repeat split. rewrite length_app. simpl. lia.
Qed.

Lemma is_unresponsive_spec c :
  is_unresponsive c = true <-> status c = unresponsive.
Proof.
  unfold is_unresponsive. destruct (status c); simpl; split;
    intros H; try reflexivity; discriminate.
Qed.

Lemma join_app sep (a b : list string) :
  a <> [] -> b <> [] ->
  join sep (a ++ b) = join sep a ++ sep ++ join sep b.
Proof.
  intros Ha Hb. induction a as [|x a IH]; [now elim Ha|].
  destruct a as [|x' a].
  - destruct b as [|y b]; [now elim Hb | reflexivity].
  - change (join sep ((x :: x' :: a) ++ b))
      with (x ++ sep ++ join sep ((x' :: a) ++ b)).
    rewrite IH by discriminate.
    change (join sep (x :: x' :: a)) with (x ++ sep ++ join sep (x' :: a)).
    now rewrite !append_assoc.
Qed.

Lemma humanize_label st : humanize st = status_label st.
Proof. now destruct st. Qed.

(** C7: for a non-empty outreach list the report is the body (header,
    divider, contact lines, summary) followed by the unresponsive section.
    The section is a blank line, the heading [Unresponsive Suppliers:] and
    one line [  • NAME (EMAIL)] for each contact of status [unresponsive],
    in list order; when there is no such contact nothing follows the body,
    neither heading nor entries. *)
Theorem weekly_unresponsive_section_spec (w : World) :
  outreach_list (ctx w) <> [] ->
  let report := fst (generate_weekly_supplier_report w) in
  let u := filter is_unresponsive (contacts w) in
  let heading := LF ++ "Unresponsive Suppliers:" in
  let entry c := "  • " ++ name c ++ " (" ++ email c ++ ")" in
  (forall c, In c u <-> In c (contacts w) /\ status c = unresponsive)
  /\ (u = [] -> report = String.concat LF (weekly_body_lines w))
  /\ (u <> [] ->
        report = String.concat LF
                   (weekly_body_lines w ++ heading :: map entry u)%list
        /\ report = String.concat LF (weekly_body_lines w) ++ LF
                      ++ String.concat LF (heading :: map entry u)).
Proof.
  intros Hne report u heading entry. subst report.
  rewrite generate_weekly_spec.
  cbn [fst]. unfold weekly_report_text, weekly_unresponsive_section.
  fold u. destruct (outreach_list (ctx w)) as [|r l]; [now elim Hne|].
  split.
  - intros c. subst u. rewrite filter_In, is_unresponsive_spec. reflexivity.
  - split.
    + intros ->. now rewrite app_nil_r.
    + intros Hu. destruct u as [|c cs]; [now elim Hu|].
      split; [reflexivity|].
      apply (join_app LF (weekly_body_lines w)
               (heading :: map entry (c :: cs))); discriminate.
Qed.

Lemma weekly_unresponsive_section_spec_witness :
  outreach_list (ctx two_contacts_world) <> []
  /\ filter is_unresponsive (contacts two_contacts_world)
     = [mkOutreachContact "Global Pharma" "inquiries@globalpharma.com"
          unresponsive (sample_clock 1)]
  /\ fst (generate_weekly_supplier_report two_contacts_world)
     = String.concat LF
         ["Weekly Supplier Outreach Report (2026-11-03)";
          "--------------------------------------------";
          "• Acme Medical (sales@acmemed.com) – Initial Sent – 0 days since last contact";
          "• Global Pharma (inquiries@globalpharma.com) – Unresponsive – 0 days since last contact";
          String "010"%char "Summary:";
          "  - Initial Sent: 1";
          "  - Unresponsive: 1";
          String "010"%char "Unresponsive Suppliers:";
          "  • Global Pharma (inquiries@globalpharma.com)"].
Proof.
  split; [discriminate|]. split; [reflexivity|].
  destruct (weekly_unresponsive_section_spec two_contacts_world)
    as (_ & _ & Hsome); [discriminate|].
  destruct Hsome as [Hreport _]; [discriminate|].
  rewrite Hreport. reflexivity.
Defined.

(** ** Dictionaries built by a grouping fold *)

Section GroupFoldFacts.

Local Open Scope list_scope.

Context {K A V : Type}.
Variable eqb : K -> K -> bool.
Hypothesis eqb_spec : forall a b, eqb a b = true <-> a = b.
Variable key : A -> K.
Variable g : A -> V -> V.
Variable dflt : V.

Lemma eqb_refl' k : eqb k k = true.
Proof. now apply eqb_spec. Qed.

Lemma existsb_eqb_In k l : existsb (eqb k) l = true <-> In k l.
Proof.
  rewrite existsb_exists. split.
  - intros [x [Hx He]]. apply eqb_spec in He. now subst.
  - intros H. exists k. split; [exact H | apply eqb_refl'].
Qed.

Lemma first_seen_In k l : In k (first_seen eqb l) <-> In k l.
Proof.
  induction l as [|x l IH]; simpl; [reflexivity|].
  rewrite filter_In, IH. split.
  - intros [H | [H _]]; [now left | now right].
  - intros [H | H]; [now left|].
    destruct (eqb x k) eqn:E.
    + left. now apply eqb_spec.
    + right. now split.
Qed.

Lemma first_seen_NoDup l : NoDup (first_seen eqb l).
Proof.
  induction l as [|x l IH]; simpl; constructor.
  - rewrite filter_In. intros [_ H]. now rewrite eqb_refl' in H.
  - now apply NoDup_filter.
Qed.

Lemma first_seen_snoc l k :
  first_seen eqb (l ++ [k]) =
  if existsb (eqb k) l then first_seen eqb l else first_seen eqb l ++ [k].
Proof.
  induction l as [|x l IH]; simpl; [reflexivity|].
  rewrite IH. destruct (eqb k x) eqn:Ekx; simpl.
  - apply eqb_spec in Ekx. subst x.
    destruct (existsb (eqb k) l); [reflexivity|].
    rewrite filter_app. simpl. rewrite eqb_refl'. simpl.
    now rewrite app_nil_r.
  - destruct (existsb (eqb k) l); [reflexivity|].
    rewrite filter_app. simpl.
    destruct (eqb x k) eqn:Exk.
    + apply eqb_spec in Exk. subst x. now rewrite eqb_refl' in Ekx.
    + reflexivity.
Qed.

Lemma dict_get_map (F : K -> V) ks k d0 :
  In k ks -> dict_get eqb (map (fun k' => (k', F k')) ks) k d0 = F k.
Proof.
  induction ks as [|k' ks IH]; intros Hin; [now elim Hin|]. simpl.
  destruct (eqb k' k) eqn:E.
  - apply eqb_spec in E. now subst.
  - destruct Hin as [-> | Hin]; [now rewrite eqb_refl' in E | now apply IH].
Qed.

Lemma dict_get_absent (d : dict K V) k d0 :
  ~ In k (map fst d) -> dict_get eqb d k d0 = d0.
Proof.
  induction d as [|[k' v] d IH]; intros Hn; [reflexivity|]. simpl.
  destruct (eqb k' k) eqn:E.
  - apply eqb_spec in E. subst. elim Hn. now left.
  - apply IH. intros H. apply Hn. now right.
Qed.

Lemma dict_set_absent (d : dict K V) k v :
  ~ In k (map fst d) -> dict_set eqb d k v = d ++ [(k, v)].
Proof.
  induction d as [|[k' v'] d IH]; intros Hn; [reflexivity|]. simpl.
  destruct (eqb k' k) eqn:E.
  - apply eqb_spec in E. subst. elim Hn. now left.
  - f_equal. apply IH. intros H. apply Hn. now right.
Qed.

Lemma dict_set_map (F : K -> V) ks k v :
  NoDup ks -> In k ks ->
  dict_set eqb (map (fun k' => (k', F k')) ks) k v =
  map (fun k' => (k', if eqb k' k then v else F k')) ks.
Proof.
  induction ks as [|k' ks IH]; intros Hnd Hin; [now elim Hin|].
  inversion Hnd as [|? ? Hnotin Hnd']; subst. simpl.
  destruct (eqb k' k) eqn:E.
  - apply eqb_spec in E. subst k'. f_equal.
    apply map_ext_in. intros k'' Hk''.
    destruct (eqb k'' k) eqn:E'; [|reflexivity].
    apply eqb_spec in E'. now subst.
  - f_equal. apply IH; [exact Hnd'|].
    destruct Hin as [-> | Hin]; [now rewrite eqb_refl' in E | exact Hin].
Qed.

Lemma dict_mem_In (d : dict K V) k :
  dict_mem eqb d k = true <-> In k (map fst d).
Proof.
  induction d as [|[k' v] d IH]; simpl; [split; [discriminate | tauto]|].
  rewrite orb_true_iff, IH, eqb_spec. reflexivity.
Qed.

Lemma dict_get_app_absent (d d' : dict K V) k d0 :
  ~ In k (map fst d) -> dict_get eqb (d ++ d') k d0 = dict_get eqb d' k d0.
Proof.
  induction d as [|[k' v] d IH]; intros Hn; [reflexivity|]. simpl.
  destruct (eqb k' k) eqn:E.
  - apply eqb_spec in E. subst. elim Hn. now left.
  - apply IH. intros H. apply Hn. now right.
Qed.

Lemma dict_set_app_absent (d d' : dict K V) k v :
  ~ In k (map fst d) ->
  dict_set eqb (d ++ d') k v = d ++ dict_set eqb d' k v.
Proof.
  induction d as [|[k' v'] d IH]; intros Hn; [reflexivity|]. simpl.
  destruct (eqb k' k) eqn:E.
  - apply eqb_spec in E. subst. elim Hn. now left.
  - f_equal. apply IH. intros H. apply Hn. now right.
Qed.

(** [d.setdefault(k, v0)] followed by an update of the entry is the update
    of the entry with [v0] as the default. *)
Lemma dict_setdefault_then_set (d : dict K V) k v0 (f : V -> V) :
  let d1 := dict_setdefault eqb d k v0 in
  dict_set eqb d1 k (f (dict_get eqb d1 k v0))
  = dict_set eqb d k (f (dict_get eqb d k v0)).
Proof.
  unfold dict_setdefault. destruct (dict_mem eqb d k) eqn:E; [reflexivity|].
  assert (Hn : ~ In k (map fst d)).
  { intros H. apply dict_mem_In in H. congruence. }
  cbv zeta. rewrite dict_get_app_absent, dict_set_app_absent by exact Hn.
  simpl. rewrite eqb_refl'.
  now rewrite dict_get_absent, dict_set_absent by exact Hn.
Qed.

Lemma group_value_snoc k xs x :
  group_value eqb key g dflt k (xs ++ [x]) =
  if eqb k (key x) then g x (group_value eqb key g dflt k xs)
  else group_value eqb key g dflt k xs.
Proof.
  unfold group_value. rewrite filter_app. simpl.
  destruct (eqb k (key x)).
  - now rewrite fold_left_app.
  - now rewrite app_nil_r.
Qed.

Lemma group_value_absent k xs :
  ~ In k (map key xs) -> group_value eqb key g dflt k xs = dflt.
Proof.
  intros Hn. unfold group_value.
  replace (filter (fun x => eqb k (key x)) xs) with (@nil A); [reflexivity|].
  symmetry. induction xs as [|x xs IH]; [reflexivity|]. simpl.
  destruct (eqb k (key x)) eqn:E.
  - apply eqb_spec in E. elim Hn. left. now symmetry.
  - apply IH. intros H. apply Hn. now right.
Qed.

(** The dictionary a grouping fold builds: its keys are the keys of the
    items in order of first occurrence, each with the fold of its items. *)
Lemma fold_upd_step_spec xs :
  fold_left (upd_step eqb key g dflt) xs [] =
  map (fun k => (k, group_value eqb key g dflt k xs))
      (first_seen eqb (map key xs)).
Proof.
  induction xs as [|x xs IH] using rev_ind; [reflexivity|].
  rewrite fold_left_app. cbn [fold_left]. rewrite IH.
  rewrite map_app. cbn [map]. rewrite first_seen_snoc.
  unfold upd_step at 1.
  set (ks := first_seen eqb (map key xs)).
  destruct (existsb (eqb (key x)) (map key xs)) eqn:E.
  - apply existsb_eqb_In in E.
    assert (Hin : In (key x) ks) by now apply first_seen_In.
    rewrite dict_get_map by exact Hin.
    rewrite dict_set_map by (try exact Hin; apply first_seen_NoDup).
    apply map_ext. intros k. rewrite group_value_snoc.
    destruct (eqb k (key x)) eqn:Ek; [|reflexivity].
    apply eqb_spec in Ek. now subst.
  - assert (Hnin : ~ In (key x) (map key xs)).
    { intros H. apply existsb_eqb_In in H. congruence. }
    assert (Hnks : ~ In (key x)
                     (map fst (map (fun k => (k, group_value eqb key g dflt k xs))
                                   ks))).
    { rewrite map_map. simpl. rewrite map_id. subst ks.
      now rewrite first_seen_In. }
    rewrite dict_get_absent by exact Hnks.
    rewrite dict_set_absent by exact Hnks.
    rewrite map_app. cbn [map]. f_equal.
    + apply map_ext_in. intros k Hk. rewrite group_value_snoc.
      destruct (eqb k (key x)) eqn:Ek; [|reflexivity].
      apply eqb_spec in Ek. subst k. subst ks.
      rewrite first_seen_In in Hk. contradiction.
    + rewrite group_value_snoc, eqb_refl'.
      now rewrite (group_value_absent _ _ Hnin).
Qed.

End GroupFoldFacts.

(** ** The summary section of the weekly report *)

Lemma Status_eqb_spec a b : Status_eqb a b = true <-> a = b.
Proof.
  destruct a, b; unfold Status_eqb; simpl; split; intros H;
    try reflexivity; discriminate.
Qed.

Lemma fold_incr_length {A} (l : list A) : forall z,
  fold_left (fun v _ => v + 1) l z = z + Z.of_nat (List.length l).
Proof.
  induction l as [|x l IH]; intros z.
  - simpl. lia.
  - cbn [fold_left List.length]. rewrite IH. lia.
Qed.

Lemma weekly_status_counts_spec w :
  weekly_status_counts w =
  map (fun st => (st, status_count st (contacts w)))
      (first_seen Status_eqb (map status (contacts w))).
Proof.
  unfold weekly_status_counts.
  change count_step with (upd_step Status_eqb status (fun _ v => v + 1) 0).
  rewrite (fold_upd_step_spec Status_eqb Status_eqb_spec).
  apply map_ext. intros st. unfold group_value, status_count.
  now rewrite fold_incr_length.
Qed.

Lemma total_count_step d c :
  total (map snd (count_step d c)) = total (map snd d) + 1.
Proof.
  unfold count_step. induction d as [|[k v] d IH]; simpl; [lia|].
  destruct (Status_eqb k (status c)); simpl; [lia|].
  unfold total in IH. simpl in IH. unfold total. lia.
Qed.

Lemma total_fold_count_step cs : forall d,
  total (map snd (fold_left count_step cs d))
  = total (map snd d) + Z.of_nat (List.length cs).
Proof.
  induction cs as [|c cs IH]; intros d.
  - simpl. lia.
  - cbn [fold_left List.length]. rewrite IH, total_count_step. lia.
Qed.

(** C3: for a non-empty outreach list of N contacts, the summary section of
    the weekly report is the heading [Summary:] followed by exactly one line
    [  - STATUS: COUNT] for each status that occurs on the list, in order of
    first occurrence in the list, with the status in title case and the
    count in decimal; the count on each line is the number of contacts of
    that status, and the counts add up to N. *)
Theorem weekly_summary_counts (w : World) :
  outreach_list (ctx w) <> [] ->
  let cs := contacts w in
  let seen := first_seen Status_eqb (map status cs) in
  let heading := LF ++ "Summary:" in
  let line st :=
    "  - " ++ status_label st ++ ": " ++ decimal (status_count st cs) in
  fst (generate_weekly_supplier_report w)
  = String.concat LF
      (weekly_head_lines w ++ heading :: map line seen
         ++ weekly_unresponsive_section w)%list
  /\ NoDup seen
  /\ (forall st, In st seen <-> In st (map status cs))
  /\ total (map (fun st => status_count st cs) seen)
     = Z.of_nat (List.length cs).
Proof.
  intros Hne cs seen heading line. split; [|split; [|split]].
  - rewrite generate_weekly_spec. cbn [fst].
    unfold weekly_report_text, weekly_body_lines.
    destruct (outreach_list (ctx w)) as [|r l]; [now elim Hne|].
    rewrite weekly_status_counts_spec, map_map, <- !app_assoc.
    assert (Hmap : map (fun st => summary_line (st, status_count st (contacts w)))
                       (first_seen Status_eqb (map status (contacts w)))
                   = map line seen).
    { apply map_ext. intros st. unfold summary_line, line. cbn [fst snd].
      now rewrite humanize_label. }
    rewrite Hmap. reflexivity.
  - apply (first_seen_NoDup Status_eqb Status_eqb_spec).
  - intros st. apply (first_seen_In Status_eqb Status_eqb_spec).
  - pose proof (total_fold_count_step cs []) as H.
    change (fold_left count_step cs []) with (weekly_status_counts w) in H.
    rewrite weekly_status_counts_spec, map_map in H.
    exact H.
Qed.

Lemma weekly_summary_counts_witness :
  outreach_list (ctx two_contacts_world) <> []
  /\ fst (generate_weekly_supplier_report two_contacts_world)
     = String.concat LF
         ["Weekly Supplier Outreach Report (2026-11-03)";
          "--------------------------------------------";
          "• Acme Medical (sales@acmemed.com) – Initial Sent – 0 days since last contact";
          "• Global Pharma (inquiries@globalpharma.com) – Unresponsive – 0 days since last contact";
          String "010"%char "Summary:";
          "  - Initial Sent: 1";
          "  - Unresponsive: 1";
          String "010"%char "Unresponsive Suppliers:";
          "  • Global Pharma (inquiries@globalpharma.com)"]
  /\ first_seen Status_eqb (map status (contacts two_contacts_world))
     = [initial_sent; unresponsive]
  /\ total (map (fun st => status_count st (contacts two_contacts_world))
              (first_seen Status_eqb
                 (map status (contacts two_contacts_world))))
     = 2.
Proof.
  split; [discriminate|].
  destruct (weekly_summary_counts two_contacts_world)
    as (Hreport & _ & _ & Htotal); [discriminate|].
  split; [rewrite Hreport; reflexivity|].
  split; [reflexivity | exact Htotal].
Defined.

(** ** Bi-weekly medical trend report *)

Lemma render_groups_spec groups : forall lines,
  render_groups groups lines = (lines ++ flat_map group_lines groups)%list.
Proof.
  unfold render_groups.
  induction groups as [|g groups IH]; intros lines.
  - simpl. now rewrite app_nil_r.
  - cbn [fold_left flat_map]. rewrite IH, append_each_spec.
    unfold group_lines at 2. rewrite <- !app_assoc. reflexivity.
Qed.

(** The report generator in closed form: the text, and a world that differs
    only in the report history and the two clock readings taken. *)
Lemma generate_biweekly_spec w :
  generate_biweekly_medical_trend_report w =
  (biweekly_report_text w,
   mkWorld (objs w) (next_ref w)
     (mkEmailAgentContext (outreach_list (ctx w)) (medical_summaries (ctx w))
        (weekly_report (ctx w))
        (bi_weekly_report (ctx w) ++ [biweekly_report_text w]))
     (clock w) (S (S (ticks w)))).
Proof.
  unfold generate_biweekly_medical_trend_report, biweekly_report_text,
    biweekly_empty_text, biweekly_header, recent_summaries, biweekly_cutoff,
    bi_weekly_report_append, dict_items, bind, now, get_ctx, ret, put_ctx.
  cbn [ctx objs clock ticks next_ref].
  destruct (filter _ (medical_summaries (ctx w))) as [|s l] eqn:E.
  - reflexivity.
  - rewrite render_groups_spec. reflexivity.
Qed.

Lemma group_add_upd d s :
  group_add d s
  = upd_step String.eqb trend (fun s l => (l ++ [s])%list) [] d s.
Proof.
  unfold group_add, upd_step.
  apply (dict_setdefault_then_set String.eqb String.eqb_eq d (trend s) []
           (fun l => (l ++ [s])%list)).
Qed.

Lemma fold_snoc_id {A} (l : list A) : forall acc,
  fold_left (fun v x => (v ++ [x])%list) l acc = (acc ++ l)%list.
Proof.
  induction l as [|x l IH]; intros acc; simpl.
  - now rewrite app_nil_r.
  - rewrite IH, <- app_assoc. reflexivity.
Qed.

(** The grouping loop in closed form. *)
Lemma group_by_trend_spec recent :
  group_by_trend recent =
  map (fun t => (t, with_trend t recent))
      (first_seen String.eqb (map trend recent)).
Proof.
  unfold group_by_trend.
  assert (H : forall d,
             fold_left group_add recent d
             = fold_left (upd_step String.eqb trend
                            (fun s l => (l ++ [s])%list) []) recent d).
  { induction recent as [|s l IH]; intros d; [reflexivity|].
    cbn [fold_left]. now rewrite IH, group_add_upd. }
  rewrite H, (fold_upd_step_spec String.eqb String.eqb_eq).
  apply map_ext. intros t. unfold group_value, with_trend.
  now rewrite fold_snoc_id.
Qed.

Lemma group_add_items d s :
  Permutation (List.concat (map snd (group_add d s)))
              (List.concat (map snd d) ++ [s])%list.
Proof.
  rewrite group_add_upd. unfold upd_step.
  induction d as [|[k v] d IH]; simpl.
  - apply Permutation_refl.
  - destruct (String.eqb k (trend s)); simpl.
    + rewrite <- !app_assoc. apply Permutation_app_head.
      apply Permutation_app_comm.
    + rewrite <- app_assoc. now apply Permutation_app_head.
Qed.

Lemma group_fold_items l : forall d,
  Permutation (List.concat (map snd (fold_left group_add l d)))
              (List.concat (map snd d) ++ l)%list.
Proof.
  induction l as [|s l IH]; intros d.
  - simpl. now rewrite app_nil_r.
  - cbn [fold_left]. rewrite IH.
    rewrite (group_add_items d s), <- app_assoc. reflexivity.
Qed.

(** The items of the groups are the grouped summaries, each once. *)
Lemma group_by_trend_items recent :
  Permutation (List.concat (map snd (group_by_trend recent))) recent.
Proof. apply (group_fold_items recent []). Qed.

(** C6: the groups of the bi-weekly report are keyed by the trend labels of
    the recent summaries in order of first occurrence; the group of a label
    holds the recent summaries with exactly that label, in their original
    order.  Two recent summaries share a group exactly when their labels are
    the same string. *)
Theorem trend_groups_by_exact_label (w : World) :
  let recent := recent_summaries w in
  let groups := group_by_trend recent in
  fst (generate_biweekly_medical_trend_report w)
  = match recent with
    | [] => biweekly_empty_text w
    | _ :: _ =>
        join nl ([biweekly_header w;
                  repeat_str "-" (String.length (biweekly_header w))]
                   ++ flat_map group_lines groups)
    end
  /\ groups = map (fun t => (t, filter (fun s => String.eqb t (trend s)) recent))
                  (first_seen String.eqb (map trend recent))
  /\ NoDup (map fst groups)
  /\ (forall s1 s2, In s1 recent -> In s2 recent ->
        ((exists g, In g groups /\ In s1 (snd g) /\ In s2 (snd g))
         <-> trend s1 = trend s2)).
Proof.
  intros recent groups.
  assert (Hg : groups
               = map (fun t => (t, filter (fun s => String.eqb t (trend s)) recent))
                     (first_seen String.eqb (map trend recent))).
  { subst groups. apply group_by_trend_spec. }
  split; [|split; [|split]].
  - rewrite generate_biweekly_spec. reflexivity.
  - exact Hg.
  - rewrite Hg, map_map. simpl. rewrite map_id.
    apply (first_seen_NoDup String.eqb String.eqb_eq).
  - intros s1 s2 H1 H2. rewrite Hg. split.
    + intros [g [Hin [Hs1 Hs2]]].
      apply in_map_iff in Hin. destruct Hin as [t [<- _]].
      cbn [snd] in Hs1, Hs2.
      apply filter_In in Hs1. apply filter_In in Hs2.
      destruct Hs1 as [_ E1]. destruct Hs2 as [_ E2].
      apply String.eqb_eq in E1. apply String.eqb_eq in E2. congruence.
    + intros Ht.
      exists (trend s1, filter (fun s => String.eqb (trend s1) (trend s)) recent).
      split; [|split].
      * apply in_map_iff. exists (trend s1). split; [reflexivity|].
        apply (first_seen_In String.eqb String.eqb_eq).
        now apply in_map.
      * cbn [snd]. apply filter_In. split; [exact H1 | apply String.eqb_refl].
      * cbn [snd]. apply filter_In. split; [exact H2|].
        now apply String.eqb_eq.
Qed.

Lemma trend_groups_by_exact_label_witness :
  let s1 := mkMedicalNewsSummary "Breakthrough Therapy X"
              "A new therapy shows promise in trials." "Gene Therapy"
              (sample_clock 0) in
  let s2 := mkMedicalNewsSummary "Vector news" "Delivery vectors improve."
              "gene therapy" (sample_clock 1) in
  let s3 := mkMedicalNewsSummary "Trial update" "Second trial confirms."
              "Gene Therapy" (sample_clock 2) in
  recent_summaries three_summaries_world = [s1; s2; s3]
  /\ group_by_trend (recent_summaries three_summaries_world)
     = [("Gene Therapy", [s1; s3]); ("gene therapy", [s2])]
  /\ (exists g, In g (group_by_trend (recent_summaries three_summaries_world))
                /\ In s1 (snd g) /\ In s3 (snd g))
  /\ ~ (exists g, In g (group_by_trend (recent_summaries three_summaries_world))
                  /\ In s1 (snd g) /\ In s2 (snd g)).
Proof.
  intros s1 s2 s3.
  pose proof (trend_groups_by_exact_label three_summaries_world) as H.
  cbv zeta in H. destruct H as (_ & Hg & _ & Hsame).
  split; [reflexivity|]. split; [exact Hg|]. split.
  - apply (Hsame s1 s3); [simpl; tauto | simpl; tauto | reflexivity].
  - intros Hex. apply (Hsame s1 s2) in Hex;
      [discriminate | simpl; tauto | simpl; tauto].
Defined.

(** ** One record per email address *)

Lemma distinct_NoDup l : distinct l = true <-> NoDup l.
Proof.
  induction l as [|x l IH]; simpl.
  - split; [constructor | reflexivity].
  - rewrite andb_true_iff, negb_true_iff, IH. split.
    + intros [Hx Hl]. constructor; [|exact Hl].
      intros Hin. apply not_true_iff_false in Hx. apply Hx.
      apply existsb_exists. exists x. split; [exact Hin | apply String.eqb_refl].
    + intros H. inversion H as [|? ? Hx Hl]; subst. split; [|exact Hl].
      apply not_true_iff_false. intros Hex.
      apply existsb_exists in Hex. destruct Hex as [y [Hy Hxy]].
      apply String.eqb_eq in Hxy. now subst.
Qed.

(** An update in place leaves every email where it was. *)
Lemma upsert_existing_emails w nm em st r :
  first_match w em (outreach_list (ctx w)) = Some r ->
  let w' := snd (update_outreach_contact_in_context nm em st w) in
  outreach_list (ctx w') = outreach_list (ctx w)
  /\ next_ref w' = next_ref w
  /\ map email (contacts w') = map email (contacts w).
Proof.
  intros Hr w'. subst w'.
  destruct (upsert_existing w nm em st r Hr) as [w1 [Hrun Hupd]].
  rewrite Hrun. cbn [snd].
  destruct Hupd as (Hobj & Hframe & Hnext & Hctx & _ & _).
  split; [now rewrite Hctx|]. split; [exact Hnext|].
  unfold contacts. rewrite Hctx, !map_map.
  apply map_ext. intros r'.
  destruct (Nat.eq_dec r' r) as [-> | Hne].
  - now rewrite Hobj.
  - now rewrite Hframe.
Qed.

Lemma upsert_keeps_invariants w nm em st :
  wf w = true -> unique_emails w = true ->
  let w' := snd (update_outreach_contact_in_context nm em st w) in
  wf w' = true /\ unique_emails w' = true.
Proof.
  intros Hwf Huniq w'. subst w'.
  destruct (first_match w em (outreach_list (ctx w))) as [r|] eqn:E.
  - destruct (upsert_existing_emails w nm em st r E) as (Hl & Hn & He).
    split.
    + unfold wf. now rewrite Hl, Hn.
    + unfold unique_emails. now rewrite He.
  - split; [now apply upsert_new_wf|].
    unfold unique_emails. rewrite upsert_new_contacts by assumption.
    rewrite map_app. cbn [map email].
    apply distinct_NoDup. apply distinct_NoDup in Huniq.
    apply NoDup_app; [exact Huniq | repeat constructor; intros [] |].
    intros e He [<- | []].
    apply in_map_iff in He. destruct He as [c [Hce Hc]].
    rewrite first_match_none in E. exact (E c Hc Hce).
Qed.

(** C2: in a context where no two records of the outreach list carry the
    same email, each of the four operations (contact upsert, adding a
    medical summary, weekly report, bi-weekly report) ends in a context with
    the same property; the references of the list stay allocated, so the
    property carries over to any sequence of operations. *)
Theorem unique_emails_preserved (w : World) :
  wf w = true -> unique_emails w = true ->
  (forall nm em st,
     let w' := snd (update_outreach_contact_in_context nm em st w) in
     wf w' = true /\ unique_emails w' = true)
  /\ (forall subject summ trnd,
        let w' := snd (add_medical_summary_to_context subject summ trnd w) in
        wf w' = true /\ unique_emails w' = true)
  /\ (let w' := snd (generate_weekly_supplier_report w) in
      wf w' = true /\ unique_emails w' = true)
  /\ (let w' := snd (generate_biweekly_medical_trend_report w) in
      wf w' = true /\ unique_emails w' = true).
Proof.
  intros Hwf Huniq. split; [|split; [|split]].
  - intros nm em st. now apply upsert_keeps_invariants.
  - intros subject summ trnd w'. subst w'. split; assumption.
  - intros w'. subst w'. rewrite generate_weekly_spec. split; assumption.
  - intros w'. subst w'. rewrite generate_biweekly_spec. split; assumption.
Qed.

Lemma unique_emails_preserved_witness :
  wf two_contacts_world = true
  /\ unique_emails two_contacts_world = true
  /\ unique_emails
       (snd (update_outreach_contact_in_context
               "ACME Corp" "sales@acmemed.com" replied two_contacts_world))
     = true
  /\ unique_emails
       (snd (update_outreach_contact_in_context
               "Innovate MedTech" "contact@innovatemed.com" initial_sent
               two_contacts_world))
     = true
  /\ unique_emails (snd (generate_weekly_supplier_report two_contacts_world))
     = true.
Proof.
  pose proof (unique_emails_preserved two_contacts_world eq_refl eq_refl)
    as (Hup & _ & Hweekly & _).
  split; [reflexivity|]. split; [reflexivity|].
  split; [apply Hup|]. split; [apply Hup | apply Hweekly].
Defined.

(** ** Mailbox failures *)

Lemma read_yahoo_emails_unset environ login :
  unset (environ "YAHOO_EMAIL") = true
  \/ unset (environ "YAHOO_PASSWORD") = true ->
  read_yahoo_emails environ login =
  inr "Error: YAHOO_EMAIL and YAHOO_PASSWORD environment variables are not set.".
Proof.
  intros H. unfold read_yahoo_emails.
  destruct (environ "YAHOO_EMAIL") as [a|]; [|reflexivity].
  destruct (environ "YAHOO_PASSWORD") as [p|]; [|reflexivity].
  destruct H as [H | H]; rewrite H; [reflexivity|].
  now rewrite orb_true_r.
Qed.

Lemma read_yahoo_emails_failed environ login address pw yielded e :
  environ "YAHOO_EMAIL" = Some address ->
  environ "YAHOO_PASSWORD" = Some pw ->
  login YAHOO_IMAP_SERVER address pw "INBOX" = Failed yielded e ->
  read_yahoo_emails environ login =
  inr (match unset (Some address) || unset (Some pw) with
       | true =>
           "Error: YAHOO_EMAIL and YAHOO_PASSWORD environment variables are not set."
       | false => "Error connecting to Yahoo IMAP or fetching emails: " ++ e
       end).
Proof.
  intros Ha Hp Hl. unfold read_yahoo_emails. rewrite Ha, Hp, Hl.
  now destruct (unset (Some address) || unset (Some pw)).
Qed.

(** C9: when the credentials are not set, or the session with the mail
    server fails while connecting, logging in or fetching, the reader
    returns an error text, which is not a list of messages, and the
    mail-processing phase prints it and ends: no email is handed to the
    agents and the world is left as it was. *)
Theorem mailbox_failure_skips_mail_phase
    (Runner_run : string -> World -> list RunItem * World)
    (environ : Environ)
    (login : string -> string -> string -> string -> ImapSession)
    (w : World) :
  (unset (environ "YAHOO_EMAIL") = true
   \/ unset (environ "YAHOO_PASSWORD") = true
   \/ exists address pw yielded e,
        environ "YAHOO_EMAIL" = Some address
        /\ environ "YAHOO_PASSWORD" = Some pw
        /\ login YAHOO_IMAP_SERVER address pw "INBOX" = Failed yielded e) ->
  exists err,
    read_yahoo_emails environ login = inr err
    /\ (forall emails, read_yahoo_emails environ login <> inl emails)
    /\ process_yahoo_emails Runner_run environ login w
       = ([nl ++ "--- Task: Processing Yahoo Emails ---";
           "Could not fetch emails: " ++ err], w).
Proof.
  intros H.
  assert (Herr : exists err, read_yahoo_emails environ login = inr err).
  { destruct H as [H | [H | (address & pw & yielded & e & Ha & Hp & Hl)]].
    - eexists. apply read_yahoo_emails_unset. now left.
    - eexists. apply read_yahoo_emails_unset. now right.
    - eexists. apply (read_yahoo_emails_failed _ _ _ _ _ _ Ha Hp Hl). }
  destruct Herr as [err Herr]. exists err.
  split; [exact Herr|]. split.
  - intros emails. rewrite Herr. discriminate.
  - unfold process_yahoo_emails. rewrite Herr. reflexivity.
Qed.

Lemma mailbox_failure_skips_mail_phase_witness :
  unset (no_credentials "YAHOO_EMAIL") = true
  /\ (exists err,
        read_yahoo_emails no_credentials refusing_server = inr err
        /\ (forall emails,
              read_yahoo_emails no_credentials refusing_server <> inl emails)
        /\ process_yahoo_emails idle_runner no_credentials refusing_server
             two_contacts_world
           = ([nl ++ "--- Task: Processing Yahoo Emails ---";
               "Could not fetch emails: " ++ err], two_contacts_world)).
Proof.
  split; [reflexivity|].
  apply (mailbox_failure_skips_mail_phase idle_runner no_credentials
           refusing_server two_contacts_world).
  left. reflexivity.
Defined.

(** The two failures give the two error texts, and a session that succeeds
    gives a list. *)
Example read_yahoo_emails_refused :
  read_yahoo_emails with_credentials refusing_server
  = inr "Error connecting to Yahoo IMAP or fetching emails: authentication failed".
Proof. reflexivity. Qed.

Example read_yahoo_emails_fetched :
  read_yahoo_emails with_credentials
    (fun _ _ _ _ => Fetched [mkMessage "a@b.c" "Hello" EmptyString "<p>Hi</p>"])
  = inl [[("from", "a@b.c"); ("subject", "Hello"); ("body", "<p>Hi</p>")]].
Proof. reflexivity. Qed.

(** ** Scenarios *)

Example humanize_values :
  map humanize [initial_sent; follow_up_1_sent; follow_up_2_sent; replied;
                unresponsive]
  = ["Initial Sent"; "Follow Up 1 Sent"; "Follow Up 2 Sent"; "Replied";
     "Unresponsive"].
Proof. reflexivity. Qed.

Example date_str_sample : date_str (sample_clock 0) = "2026-11-03".
Proof. reflexivity. Qed.

Example days_floor :
  days (timedelta_days 3 - 1) = 2 /\ days (-1) = -1.
Proof. split; reflexivity. Qed.

Example weekly_report_of_empty_context :
  fst (generate_weekly_supplier_report empty_world)
  = "Weekly Supplier Outreach Report (2026-11-03):" ++ nl ++ nl
      ++ "No supplier outreach activity this week.".
Proof. reflexivity. Qed.

Example weekly_report_after_first_contact :
  let report :=
    fst ((update_outreach_contact_in_context
            "Acme Medical" "sales@acmemed.com" initial_sent ;;;
          generate_weekly_supplier_report) empty_world) in
  contains "Acme Medical" report = true
  /\ contains "Initial Sent" report = true
  /\ contains "Unresponsive Suppliers" report = false.
Proof. repeat split; vm_compute; reflexivity. Qed.

Example weekly_report_of_two_contacts :
  fst (generate_weekly_supplier_report two_contacts_world)
  = join nl
      ["Weekly Supplier Outreach Report (2026-11-03)";
       "--------------------------------------------";
       "• Acme Medical (sales@acmemed.com) – Initial Sent – 0 days since last contact";
       "• Global Pharma (inquiries@globalpharma.com) – Unresponsive – 0 days since last contact";
       nl ++ "Summary:";
       "  - Initial Sent: 1";
       "  - Unresponsive: 1";
       nl ++ "Unresponsive Suppliers:";
       "  • Global Pharma (inquiries@globalpharma.com)"].
Proof. vm_compute. reflexivity. Qed.

Example biweekly_report_of_three_summaries :
  fst (generate_biweekly_medical_trend_report three_summaries_world)
  = join nl
      ["Bi-Weekly Medical Trends Report (2026-11-03)";
       "--------------------------------------------";
       nl ++ "Trend: Gene Therapy – 2 article(s)";
       "  • Breakthrough Therapy X: A new therapy shows promise in trials.";
       "  • Trial update: Second trial confirms.";
       nl ++ "Trend: gene therapy – 1 article(s)";
       "  • Vector news: Delivery vectors improve."].
Proof. vm_compute. reflexivity. Qed.

Example biweekly_report_drops_old_summaries :
  let report := fst (generate_biweekly_medical_trend_report window_world) in
  contains "On the boundary" report = true
  /\ contains "Past the boundary" report = false
  /\ contains "Old news" report = false.
Proof. repeat split; vm_compute; reflexivity. Qed.

Example upsert_twice_keeps_one_record :
  let w :=
    snd ((update_outreach_contact_in_context
            "Acme Medical" "sales@acmemed.com" initial_sent ;;;
          update_outreach_contact_in_context
            "Acme Medical" "sales@acmemed.com" follow_up_1_sent)
           empty_world) in
  contacts w
  = [mkOutreachContact "Acme Medical" "sales@acmemed.com" follow_up_1_sent
       (sample_clock 1)].
Proof. reflexivity. Qed.

(* ================================================================== *)
(** * Further properties *)

(** ** Contact upsert: lookup, repetition and frame *)

Lemma find_pointwise {A} (f g : A -> bool) l :
  (forall x, In x l -> f x = g x) -> find f l = find g l.
Proof.
  induction l as [|x l IH]; intros H; [reflexivity|]. simpl.
  rewrite (H x) by now left.
  destruct (g x); [reflexivity|]. apply IH. intros y Hy. apply H. now right.
Qed.

(** After an append the scan for the email stops at the new object. *)
Lemma first_match_after_append w nm em st l :
  (forall c, In c (map (objs w) l) -> email c <> em) ->
  find (fun r => String.eqb
                   (email (if (r =? next_ref w)%nat
                           then mkOutreachContact nm em st (clock w (ticks w))
                           else objs w r)) em)
       (l ++ [next_ref w])
  = Some (next_ref w).
Proof.
  induction l as [|r l IH]; intros H.
  - simpl. now rewrite Nat.eqb_refl, String.eqb_refl.
  - cbn [app find]. destruct (Nat.eqb_spec r (next_ref w)) as [-> | Hne].
    + cbn [email]. now rewrite String.eqb_refl.
    + assert (Hr : email (objs w r) <> em) by (apply H; now left).
      apply String.eqb_neq in Hr. rewrite Hr.
      apply IH. intros c Hc. apply H. now right.
Qed.

(** The scan for the email after an upsert, on references. *)
Lemma upsert_lookup (w : World) (nm em : string) (st : Status) :
  let w' := snd (update_outreach_contact_in_context nm em st w) in
  exists r,
    first_match w' em (outreach_list (ctx w')) = Some r
    /\ In r (outreach_list (ctx w'))
    /\ email (objs w' r) = em
    /\ status (objs w' r) = st
    /\ last_contact_date (objs w' r) = clock w (ticks w).
Proof.
  intros w'. subst w'.
  destruct (first_match w em (outreach_list (ctx w))) as [r|] eqn:E.
  - destruct (upsert_existing w nm em st r E) as [w1 [Hrun Hupd]].
    rewrite Hrun. cbn [snd].
    destruct Hupd as (Hobj & Hframe & _ & Hctx & _ & _).
    destruct (first_match_some _ _ _ _ E) as [Hin Hem].
    exists r. rewrite Hctx, Hobj. cbn [email status last_contact_date].
    repeat split; try assumption.
    rewrite <- E. unfold first_match. apply find_pointwise.
    intros r' _. destruct (Nat.eq_dec r' r) as [-> | Hne].
    + now rewrite Hobj.
    + now rewrite Hframe.
  - rewrite (upsert_new w nm em st E). cbn [snd ctx outreach_list objs].
    exists (next_ref w). rewrite Nat.eqb_refl.
    cbn [email status last_contact_date].
    repeat split.
    + unfold first_match. cbn [objs].
      apply first_match_after_append. now apply first_match_none.
    + apply in_or_app. right. now left.
Qed.

Lemma find_map {A B} (p : B -> bool) (f : A -> B) l :
  find p (map f l) = option_map f (find (fun x => p (f x)) l).
Proof.
  induction l as [|x l IH]; [reflexivity|]. simpl.
  destruct (p (f x)); [reflexivity | exact IH].
Qed.

(** X1: an upsert followed by a search of the contacts for the same email
    finds a record, and that record carries the email, the status just given
    and the time of the upsert, whether the upsert appended or updated. *)
Theorem upsert_then_find (w : World) (nm em : string) (st : Status) :
  let w' := snd (update_outreach_contact_in_context nm em st w) in
  exists c,
    find (fun c => String.eqb (email c) em) (contacts w') = Some c
    /\ In c (contacts w')
    /\ email c = em
    /\ status c = st
    /\ last_contact_date c = clock w (ticks w).
Proof.
  intros w'.
  destruct (upsert_lookup w nm em st) as (r & Hfm & Hin & Hem & Hst & Hd).
  fold w' in Hfm, Hin, Hem, Hst, Hd.
  exists (objs w' r). unfold contacts. rewrite find_map.
  unfold first_match in Hfm. rewrite Hfm. cbn [option_map].
  repeat split; try assumption. now apply in_map.
Qed.

Lemma upsert_clock (w : World) (nm em : string) (st : Status) :
  let w' := snd (update_outreach_contact_in_context nm em st w) in
  clock w' = clock w /\ ticks w' = S (ticks w).
Proof.
  intros w'. subst w'.
  destruct (first_match w em (outreach_list (ctx w))) as [r|] eqn:E.
  - destruct (upsert_existing w nm em st r E) as [w1 [Hrun Hupd]].
    rewrite Hrun. cbn [snd].
    destruct Hupd as (_ & _ & _ & _ & Hclock & Hticks). now split.
  - rewrite (upsert_new w nm em st E). cbn [snd clock ticks]. now split.
Qed.

(** X3: the upsert touches nothing but the outreach list and its contacts:
    summaries and both report histories stay, the list keeps its references
    in place and grows by at most one, and exactly one clock reading is
    taken. *)
Theorem upsert_frame (w : World) (nm em : string) (st : Status) :
  let w' := snd (update_outreach_contact_in_context nm em st w) in
  medical_summaries (ctx w') = medical_summaries (ctx w)
  /\ weekly_report (ctx w') = weekly_report (ctx w)
  /\ bi_weekly_report (ctx w') = bi_weekly_report (ctx w)
  /\ clock w' = clock w
  /\ ticks w' = S (ticks w)
  /\ (outreach_list (ctx w') = outreach_list (ctx w)
      \/ outreach_list (ctx w')
         = (outreach_list (ctx w) ++ [next_ref w])%list).
Proof.
  intros w'. subst w'.
  destruct (first_match w em (outreach_list (ctx w))) as [r|] eqn:E.
  - destruct (upsert_existing w nm em st r E) as [w1 [Hrun Hupd]].
    rewrite Hrun. cbn [snd].
    destruct Hupd as (_ & _ & _ & Hctx & Hclock & Hticks).
    rewrite Hctx. repeat split; try assumption. now left.
  - rewrite (upsert_new w nm em st E).
    cbn [snd ctx outreach_list medical_summaries weekly_report
         bi_weekly_report clock ticks].
    repeat split. now right.
Qed.

(** X2: a second upsert for the same email never appends: the list is the
    one the first upsert left, the text is the one of the update branch, and
    the record found carries the second status and the second clock reading
    while its name stays the one stored by then. *)
Theorem upsert_same_email_again
    (w : World) (nm1 nm2 em : string) (st1 st2 : Status) :
  let w1 := snd (update_outreach_contact_in_context nm1 em st1 w) in
  let res := update_outreach_contact_in_context nm2 em st2 w1 in
  outreach_list (ctx (snd res)) = outreach_list (ctx w1)
  /\ fst res = "Successfully updated contact " ++ nm2 ++ " with status "
                 ++ status_value st2 ++ "."
  /\ exists r,
       In r (outreach_list (ctx w1))
       /\ email (objs (snd res) r) = em
       /\ name (objs (snd res) r) = name (objs w1 r)
       /\ status (objs (snd res) r) = st2
       /\ last_contact_date (objs (snd res) r) = clock w (S (ticks w)).
Proof.
  intros w1 res.
  destruct (upsert_lookup w nm1 em st1) as (r & Hfm & Hin & _).
  fold w1 in Hfm, Hin.
  destruct (first_match_some _ _ _ _ Hfm) as [_ Hem].
  destruct (upsert_clock w nm1 em st1) as (Hclock & Hticks).
  fold w1 in Hclock, Hticks.
  destruct (upsert_existing w1 nm2 em st2 r Hfm) as [w2 [Hrun Hupd]].
  subst res. rewrite Hrun. cbn [fst snd].
  destruct Hupd as (Hobj & _ & _ & Hctx & _ & _).
  split; [now rewrite Hctx|]. split; [reflexivity|].
  exists r. rewrite Hobj. cbn [name email status last_contact_date].
  rewrite Hclock, Hticks. repeat split; assumption.
Qed.

(** No upsert changes the name or the email of a record that is already on
    the list: the update branch writes status and date only, and the object
    of the append branch is new. *)
Lemma upsert_keeps_names_and_emails
    (w : World) (nm em : string) (st : Status) :
  wf w = true ->
  let w' := snd (update_outreach_contact_in_context nm em st w) in
  forall r, In r (outreach_list (ctx w)) ->
    In r (outreach_list (ctx w'))
    /\ name (objs w' r) = name (objs w r)
    /\ email (objs w' r) = email (objs w r).
Proof.
  intros Hwf w' r Hr. subst w'.
  destruct (first_match w em (outreach_list (ctx w))) as [r0|] eqn:E.
  - destruct (upsert_existing w nm em st r0 E) as [w1 [Hrun Hupd]].
    rewrite Hrun. cbn [snd].
    destruct Hupd as (Hobj & Hframe & _ & Hctx & _ & _).
    rewrite Hctx. split; [exact Hr|].
    destruct (Nat.eq_dec r r0) as [-> | Hne].
    + rewrite Hobj. now split.
    + rewrite (Hframe r Hne). now split.
  - rewrite (upsert_new w nm em st E). cbn [snd ctx outreach_list objs].
    split; [apply in_or_app; now left|].
    apply wf_spec with (r := r) in Hwf; [|exact Hr].
    destruct (Nat.eqb_spec r (next_ref w)); [lia | now split].
Qed.

(** ** Runs of operations *)

Lemma run_op_keeps_invariants op w :
  wf w = true -> unique_emails w = true ->
  wf (snd (run_op op w)) = true /\ unique_emails (snd (run_op op w)) = true.
Proof.
  intros Hwf Huniq. destruct op as [nm em st | subject summ trnd | |].
  - now apply upsert_keeps_invariants.
  - split; assumption.
  - cbn [run_op]. rewrite generate_weekly_spec. split; assumption.
  - cbn [run_op]. rewrite generate_biweekly_spec. split; assumption.
Qed.

(** X5: whatever operations are run in whatever order, a context with at
    most one record per email stays one; in particular every context reached
    from the empty one has at most one record per email. *)
Theorem run_ops_keeps_unique_emails (ops : list Op) (w : World) :
  wf w = true -> unique_emails w = true ->
  wf (run_ops ops w) = true
  /\ unique_emails (run_ops ops w) = true
  /\ NoDup (map email (contacts (run_ops ops w))).
Proof.
  revert w. induction ops as [|op ops IH]; intros w Hwf Huniq.
  - cbn [run_ops]. repeat split; try assumption.
    now apply distinct_NoDup.
  - cbn [run_ops].
    destruct (run_op_keeps_invariants op w Hwf Huniq) as [Hwf' Huniq'].
    now apply IH.
Qed.

Lemma run_ops_keeps_unique_emails_witness :
  wf empty_world = true
  /\ unique_emails empty_world = true
  /\ NoDup (map email
              (contacts
                 (run_ops [OpUpsert "Acme Medical" "sales@acmemed.com"
                             initial_sent;
                           OpWeeklyReport;
                           OpUpsert "ACME Corp" "sales@acmemed.com" replied;
                           OpAddSummary "S" "T" "U";
                           OpUpsert "Global Pharma"
                             "inquiries@globalpharma.com" initial_sent;
                           OpBiweeklyReport]
                    empty_world))).
Proof.
  split; [reflexivity|]. split; [reflexivity|].
  apply (run_ops_keeps_unique_emails _ empty_world eq_refl eq_refl).
Defined.

(** ** What the report texts contain *)

Lemma append_nil_r (s : string) : s ++ EmptyString = s.
Proof. induction s as [|c s IH]; simpl; [reflexivity | now rewrite IH]. Qed.

Lemma prefix_split s : forall h,
  String.prefix s h = true -> exists t, h = s ++ t.
Proof.
  induction s as [|c s IH]; intros h H.
  - now exists h.
  - destruct h as [|c' h]; [discriminate|]. simpl in H.
    destruct (ascii_dec c c') as [<- | _]; [|discriminate].
    destruct (IH h H) as [t ->]. now exists t.
Qed.

(** [needle in hay] holds exactly when the hay splits around the needle. *)
Lemma contains_split s h :
  contains s h = true <-> exists a t, h = a ++ s ++ t.
Proof.
  split.
  - induction h as [|c h IH]; intros H.
    + cbn [contains] in H. destruct (prefix_split _ _ H) as [t Ht].
      exists EmptyString, t. exact Ht.
    + cbn [contains] in H. apply orb_true_iff in H. destruct H as [H | H].
      * destruct (prefix_split _ _ H) as [t Ht].
        exists EmptyString, t. exact Ht.
      * destruct (IH H) as (a & t & ->). now exists (String c a), t.
  - intros (a & t & ->). apply contains_app.
Qed.

Lemma contains_refl s : contains s s = true.
Proof.
  apply contains_split. exists EmptyString, EmptyString.
  simpl. now rewrite append_nil_r.
Qed.

Lemma contains_skip a s t :
  contains s t = true -> contains s (a ++ t) = true.
Proof.
  intros H. apply contains_split in H. destruct H as (b & u & ->).
  rewrite <- append_assoc. apply contains_app.
Qed.

Lemma contains_trans a b c :
  contains a b = true -> contains b c = true -> contains a c = true.
Proof.
  intros Hab Hbc.
  apply contains_split in Hab. destruct Hab as (p & q & ->).
  apply contains_split in Hbc. destruct Hbc as (u & v & ->).
  apply contains_split. exists (u ++ p), (q ++ v).
  now rewrite !append_assoc.
Qed.

(** Every joined line occurs in the joined text. *)
Lemma contains_join sep x l : In x l -> contains x (join sep l) = true.
Proof.
  induction l as [|y l IH]; intros Hin; [now elim Hin|].
  destruct l as [|z l].
  - destruct Hin as [<- | []]. apply contains_refl.
  - change (join sep (y :: z :: l)) with (y ++ sep ++ join sep (z :: l)).
    destruct Hin as [<- | Hin].
    + apply contains_here.
    + apply contains_skip, contains_skip, IH, Hin.
Qed.

Ltac occurs :=
  repeat first [ apply contains_refl | apply contains_here
               | apply contains_skip ].

Lemma contact_lines_In clk c cs : forall n,
  In c cs -> exists d, In (contact_line c d) (contact_lines clk n cs).
Proof.
  induction cs as [|c0 cs IH]; intros n Hin; [now elim Hin|].
  destruct Hin as [-> | Hin].
  - eexists. left. reflexivity.
  - destruct (IH (S n) Hin) as [d Hd]. exists d. now right.
Qed.

(** Every contact of the list has its line in the weekly report. *)
Lemma weekly_report_has_contact_line w c :
  In c (contacts w) ->
  exists d,
    contains (contact_line c d) (fst (generate_weekly_supplier_report w))
    = true.
Proof.
  intros Hin. rewrite generate_weekly_spec. cbn [fst].
  unfold weekly_report_text.
  destruct (outreach_list (ctx w)) as [|r l] eqn:E.
  - unfold contacts in Hin. rewrite E in Hin. now elim Hin.
  - destruct (contact_lines_In (clock w) c (contacts w) (S (ticks w)) Hin)
      as [d Hd].
    exists d. apply contains_join.
    unfold weekly_body_lines, weekly_head_lines.
    apply in_or_app. left. apply in_or_app. left.
    apply in_or_app. right. exact Hd.
Qed.

Lemma contact_line_fields c d :
  contains (name c) (contact_line c d) = true
  /\ contains (email c) (contact_line c d) = true
  /\ contains (humanize (status c)) (contact_line c d) = true.
Proof. unfold contact_line. repeat split; occurs. Qed.

(** X6: the weekly report shows every contact of the list: its name, its
    email and its status in title case all occur in the report text. *)
Theorem weekly_report_shows_every_contact (w : World) (c : OutreachContact) :
  In c (contacts w) ->
  let report := fst (generate_weekly_supplier_report w) in
  contains (name c) report = true
  /\ contains (email c) report = true
  /\ contains (humanize (status c)) report = true.
Proof.
  intros Hin report.
  destruct (weekly_report_has_contact_line w c Hin) as [d Hd].
  fold report in Hd.
  destruct (contact_line_fields c d) as (Hn & He & Hs).
  repeat split; eapply contains_trans; eassumption.
Qed.

Lemma weekly_report_shows_every_contact_witness :
  In (mkOutreachContact "Global Pharma" "inquiries@globalpharma.com"
        unresponsive (sample_clock 1))
     (contacts two_contacts_world)
  /\ contains "Global Pharma"
       (fst (generate_weekly_supplier_report two_contacts_world)) = true.
Proof.
  split; [simpl; tauto|].
  apply (weekly_report_shows_every_contact two_contacts_world
           (mkOutreachContact "Global Pharma" "inquiries@globalpharma.com"
              unresponsive (sample_clock 1))).
  simpl. tauto.
Defined.

(** X7: a contact just upserted is on the next weekly report: the email and
    the title-cased status of the call occur in the text, and so does the
    name of the call when the email was new. *)
Theorem upserted_contact_is_on_weekly_report
    (w : World) (nm em : string) (st : Status) :
  let w1 := snd (update_outreach_contact_in_context nm em st w) in
  let report := fst (generate_weekly_supplier_report w1) in
  contains em report = true
  /\ contains (humanize st) report = true
  /\ (first_match w em (outreach_list (ctx w)) = None ->
      contains nm report = true).
Proof.
  intros w1 report.
  destruct (upsert_lookup w nm em st) as (r & _ & Hin & Hem & Hst & _).
  fold w1 in Hin, Hem, Hst.
  assert (Hc : In (objs w1 r) (contacts w1)) by now apply in_map.
  destruct (weekly_report_has_contact_line w1 _ Hc) as [d Hd].
  fold report in Hd.
  destruct (contact_line_fields (objs w1 r) d) as (_ & He & Hs).
  rewrite Hem in He. rewrite Hst in Hs.
  split; [eapply contains_trans; eassumption|].
  split; [eapply contains_trans; eassumption|].
  intros Hnone.
  assert (Hnew : In (mkOutreachContact nm em st (clock w (ticks w)))
                    (contacts w1)).
  { subst w1. rewrite (upsert_new w nm em st Hnone).
    unfold contacts. cbn [snd objs ctx outreach_list].
    rewrite map_app. apply in_or_app. right. cbn [map].
    rewrite Nat.eqb_refl. now left. }
  destruct (weekly_report_has_contact_line w1 _ Hnew) as [d' Hd'].
  fold report in Hd'.
  destruct (contact_line_fields
              (mkOutreachContact nm em st (clock w (ticks w))) d')
    as (Hn & _ & _).
  cbn [name] in Hn. eapply contains_trans; eassumption.
Qed.

Lemma upserted_contact_is_on_weekly_report_witness :
  first_match empty_world "sales@acmemed.com"
    (outreach_list (ctx empty_world)) = None
  /\ contains "Acme Medical"
       (fst (generate_weekly_supplier_report
               (snd (update_outreach_contact_in_context
                       "Acme Medical" "sales@acmemed.com" initial_sent
                       empty_world)))) = true.
Proof.
  split; [reflexivity|].
  apply (upserted_contact_is_on_weekly_report empty_world
           "Acme Medical" "sales@acmemed.com" initial_sent).
  reflexivity.
Defined.

Lemma group_lines_In (groups : list (string * list MedicalNewsSummary)) g x :
  In g groups -> In x (group_lines g) -> In x (flat_map group_lines groups).
Proof. intros Hg Hx. apply in_flat_map. now exists g. Qed.

(** Every recent summary has its group header and its item line in the
    bi-weekly report. *)
Lemma biweekly_report_has_lines w s :
  In s (recent_summaries w) ->
  let report := fst (generate_biweekly_medical_trend_report w) in
  contains (trend_header (trend s) (with_trend (trend s) (recent_summaries w)))
           report = true
  /\ contains (item_line s) report = true.
Proof.
  intros Hin report. subst report. rewrite generate_biweekly_spec. cbn [fst].
  unfold biweekly_report_text.
  destruct (recent_summaries w) as [|s0 l] eqn:E; [now elim Hin|].
  rewrite <- E in *. clear E s0 l.
  set (g := (trend s, with_trend (trend s) (recent_summaries w))).
  assert (Hg : In g (group_by_trend (recent_summaries w))).
  { rewrite group_by_trend_spec. apply in_map_iff. exists (trend s).
    split; [reflexivity|].
    apply (first_seen_In String.eqb String.eqb_eq). now apply in_map. }
  split; apply contains_join; apply in_or_app; right;
    apply (group_lines_In _ g); try exact Hg.
  - now left.
  - right. apply in_map. unfold with_trend. apply filter_In.
    split; [exact Hin | apply String.eqb_refl].
Qed.

(** X8: the bi-weekly report shows every recent summary: its trend label,
    its subject and its summary text all occur in the report text. *)
Theorem biweekly_report_shows_every_recent_summary
    (w : World) (s : MedicalNewsSummary) :
  In s (medical_summaries (ctx w)) ->
  clock w (S (ticks w)) - timedelta_days 14 <= date s ->
  let report := fst (generate_biweekly_medical_trend_report w) in
  contains (trend s) report = true
  /\ contains (source_email_subject s) report = true
  /\ contains (summary s) report = true.
Proof.
  intros Hin Hdate report.
  assert (Hrecent : In s (recent_summaries w)).
  { unfold recent_summaries, biweekly_cutoff, is_recent. apply filter_In.
    split; [exact Hin | now apply Z.leb_le]. }
  destruct (biweekly_report_has_lines w s Hrecent) as [Hh Hi].
  fold report in Hh, Hi.
  split; [|split].
  - eapply contains_trans; [|exact Hh]. unfold trend_header. occurs.
  - eapply contains_trans; [|exact Hi]. unfold item_line. occurs.
  - eapply contains_trans; [|exact Hi]. unfold item_line. occurs.
Qed.

Lemma biweekly_report_shows_every_recent_summary_witness :
  In on_boundary (medical_summaries (ctx window_world))
  /\ clock window_world (S (ticks window_world)) - timedelta_days 14
     <= date on_boundary
  /\ contains "On the boundary"
       (fst (generate_biweekly_medical_trend_report window_world)) = true.
Proof.
  split; [simpl; tauto|]. split; [vm_compute; discriminate|].
  apply (biweekly_report_shows_every_recent_summary window_world on_boundary);
    [simpl; tauto | vm_compute; discriminate].
Defined.

(** X9: a summary added to the context is on the next bi-weekly report when
    the report's clock reading is at most fourteen days after the reading
    that dated the summary: trend, subject and summary text occur in the
    report text. *)
Theorem added_summary_is_on_biweekly_report
    (w : World) (subject summ trnd : string) :
  clock w (S (S (ticks w))) - timedelta_days 14 <= clock w (ticks w) ->
  let w1 := snd (add_medical_summary_to_context subject summ trnd w) in
  let report := fst (generate_biweekly_medical_trend_report w1) in
  In (mkMedicalNewsSummary subject summ trnd (clock w (ticks w)))
     (recent_summaries w1)
  /\ contains trnd report = true
  /\ contains subject report = true
  /\ contains summ report = true.
Proof.
  intros Hclock w1 report.
  set (s := mkMedicalNewsSummary subject summ trnd (clock w (ticks w))).
  assert (Hrecent : In s (recent_summaries w1)).
  { unfold recent_summaries, biweekly_cutoff, is_recent. apply filter_In.
    split.
    - subst w1. cbn. apply in_or_app. right. now left.
    - apply Z.leb_le. exact Hclock. }
  split; [exact Hrecent|].
  destruct (biweekly_report_has_lines w1 s Hrecent) as [Hh Hi].
  fold report in Hh, Hi.
  split; [|split].
  - eapply contains_trans; [|exact Hh]. unfold trend_header. cbn [trend s].
    occurs.
  - eapply contains_trans; [|exact Hi]. unfold item_line.
    cbn [source_email_subject s]. occurs.
  - eapply contains_trans; [|exact Hi]. unfold item_line. cbn [summary s].
    occurs.
Qed.

Lemma added_summary_is_on_biweekly_report_witness :
  clock empty_world (S (S (ticks empty_world))) - timedelta_days 14
  <= clock empty_world (ticks empty_world)
  /\ contains "Gene Therapy"
       (fst (generate_biweekly_medical_trend_report
               (snd (add_medical_summary_to_context
                       "Breakthrough Therapy X"
                       "A new therapy shows promise in trials."
                       "Gene Therapy" empty_world)))) = true.
Proof.
  split; [vm_compute; discriminate|].
  apply (added_summary_is_on_biweekly_report empty_world
           "Breakthrough Therapy X"
           "A new therapy shows promise in trials." "Gene Therapy").
  vm_compute. discriminate.
Defined.

(** ** What the report generators leave alone *)

(** X10: the weekly report generator only reads the contacts: no contact
    object changes, no reference is allocated, and the clock is read once
    for the header and once for every contact of the list. *)
Theorem weekly_report_only_reads_contacts (w : World) :
  let w' := snd (generate_weekly_supplier_report w) in
  (forall r, objs w' r = objs w r)
  /\ contacts w' = contacts w
  /\ next_ref w' = next_ref w
  /\ clock w' = clock w
  /\ ticks w' = (ticks w + 1 + List.length (contacts w))%nat.
Proof.
  intros w'. subst w'. rewrite generate_weekly_spec.
  cbn [snd objs next_ref clock ticks]. unfold contacts.
  cbn [objs ctx outreach_list]. rewrite length_map.
  repeat split. lia.
Qed.

(** X11: one call of the bi-weekly report generator appends exactly one
    entry, the text it returns, to the bi-weekly history, reads the clock
    exactly twice, and leaves the summaries, the contacts and the weekly
    history as they were, with or without recent summaries. *)
Theorem biweekly_history_gains_returned_text (w : World) :
  let res := generate_biweekly_medical_trend_report w in
  bi_weekly_report (ctx (snd res))
  = (bi_weekly_report (ctx w) ++ [fst res])%list
  /\ medical_summaries (ctx (snd res)) = medical_summaries (ctx w)
  /\ weekly_report (ctx (snd res)) = weekly_report (ctx w)
  /\ contacts (snd res) = contacts w
  /\ ticks (snd res) = S (S (ticks w)).
Proof.
  intros res. subst res. rewrite generate_biweekly_spec.
  cbn [fst snd ctx bi_weekly_report medical_summaries weekly_report ticks].
  repeat split.
Qed.

(** ** Accounting over a run *)

Lemma upsert_lengths w nm em st :
  let c' := ctx (snd (update_outreach_contact_in_context nm em st w)) in
  List.length (weekly_report c') = List.length (weekly_report (ctx w))
  /\ List.length (bi_weekly_report c') = List.length (bi_weekly_report (ctx w))
  /\ List.length (medical_summaries c')
     = List.length (medical_summaries (ctx w))
  /\ (List.length (outreach_list (ctx w)) <= List.length (outreach_list c')
      <= S (List.length (outreach_list (ctx w))))%nat.
Proof.
  intros c'. subst c'.
  destruct (first_match w em (outreach_list (ctx w))) as [r|] eqn:E.
  - destruct (upsert_existing w nm em st r E) as [w1 [Hrun Hupd]].
    rewrite Hrun. cbn [snd].
    destruct Hupd as (_ & _ & _ & Hctx & _ & _). rewrite Hctx.
    repeat split; lia.
  - rewrite (upsert_new w nm em st E).
    cbn [snd ctx outreach_list medical_summaries weekly_report
         bi_weekly_report].
    rewrite length_app. cbn [List.length]. repeat split; lia.
Qed.

(** X12: over any run of operations the context only grows, and by exactly
    what was asked: one weekly history entry per weekly report, one
    bi-weekly entry per bi-weekly report, one summary per added summary, and
    at most one contact per upsert. *)
Theorem run_ops_accounting (ops : list Op) (w : World) :
  let c' := ctx (run_ops ops w) in
  List.length (weekly_report c')
  = (List.length (weekly_report (ctx w))
     + count_ops is_weekly_report ops)%nat
  /\ List.length (bi_weekly_report c')
     = (List.length (bi_weekly_report (ctx w))
        + count_ops is_biweekly_report ops)%nat
  /\ List.length (medical_summaries c')
     = (List.length (medical_summaries (ctx w))
        + count_ops is_add_summary ops)%nat
  /\ (List.length (outreach_list (ctx w)) <= List.length (outreach_list c')
      <= List.length (outreach_list (ctx w)) + count_ops is_upsert ops)%nat.
Proof.
  revert w. unfold count_ops. cbv zeta.
  induction ops as [|op ops IH]; intros w.
  - cbn. repeat split; lia.
  - cbn [run_ops]. specialize (IH (snd (run_op op w))).
    destruct IH as (Hw & Hb & Hm & Ho).
    rewrite Hw, Hb, Hm. clear Hw Hb Hm.
    destruct op as [nm em st | subject summ trnd | |]; cbn [run_op] in *.
    + destruct (upsert_lengths w nm em st) as (Hw & Hb & Hm & Ho').
      cbv zeta in Hw, Hb, Hm, Ho'. rewrite Hw, Hb, Hm.
      cbn [filter is_weekly_report is_biweekly_report is_add_summary
           is_upsert List.length].
      repeat split; lia.
    + cbn [filter is_weekly_report is_biweekly_report is_add_summary
           is_upsert List.length].
      cbn in Ho. cbn. rewrite length_app. cbn [List.length].
      repeat split; lia.
    + rewrite generate_weekly_spec in *.
      cbn [snd ctx outreach_list medical_summaries weekly_report
           bi_weekly_report] in *.
      cbn [filter is_weekly_report is_biweekly_report is_add_summary
           is_upsert List.length].
      rewrite length_app. cbn [List.length]. repeat split; lia.
    + rewrite generate_biweekly_spec in *.
      cbn [snd ctx outreach_list medical_summaries weekly_report
           bi_weekly_report] in *.
      cbn [filter is_weekly_report is_biweekly_report is_add_summary
           is_upsert List.length].
      rewrite length_app. cbn [List.length]. repeat split; lia.
Qed.

(** ** Counts shown by the reports *)

Lemma is_unresponsive_eqb c :
  Status_eqb unresponsive (status c) = is_unresponsive c.
Proof. unfold Status_eqb, is_unresponsive. now destruct (status c). Qed.

(** X13: for a non-empty outreach list the weekly report is its head lines,
    the summary heading, one line per counted status, and the unresponsive
    section, where the counts agree with the list and with each other:
    every count is the number of contacts of its status and is at least
    one, the count for [unresponsive] is the number of entries of the
    unresponsive section, and that status has a summary line exactly when
    the section has entries. *)
Theorem weekly_counts_match_sections (w : World) :
  outreach_list (ctx w) <> [] ->
  let cs := contacts w in
  let summary_heading_text := LF ++ "Summary:" in
  let summary_text (p : Status * Z) :=
    "  - " ++ status_label (fst p) ++ ": " ++ decimal (snd p) in
  let section_heading_text := LF ++ "Unresponsive Suppliers:" in
  let entry_text c := "  • " ++ name c ++ " (" ++ email c ++ ")" in
  exists (counts : list (Status * Z)) (entries : list OutreachContact),
    fst (generate_weekly_supplier_report w)
    = String.concat LF
        (weekly_head_lines w
           ++ summary_heading_text :: map summary_text counts
           ++ match entries with
              | [] => []
              | _ :: _ => section_heading_text :: map entry_text entries
              end)%list
    /\ (forall c, In c entries <-> In c cs /\ status c = unresponsive)
    /\ (forall st n, In (st, n) counts -> n = status_count st cs /\ 1 <= n)
    /\ (forall n, In (unresponsive, n) counts ->
          n = Z.of_nat (List.length entries))
    /\ (In unresponsive (map fst counts) <-> entries <> []).
Proof.
  intros Hne cs summary_heading_text summary_text section_heading_text
    entry_text.
  set (counts := weekly_status_counts w).
  exists counts, (filter is_unresponsive cs).
  assert (Hcount : forall st n, In (st, n) counts ->
                     n = status_count st cs /\ In st (map status cs)).
  { intros st n Hin. subst counts. rewrite weekly_status_counts_spec in Hin.
    apply in_map_iff in Hin. destruct Hin as (st' & Heq & Hst').
    injection Heq as -> <-. split; [reflexivity|].
    rewrite (first_seen_In Status_eqb Status_eqb_spec) in Hst'.
    exact Hst'. }
  assert (Hunr : status_count unresponsive cs
                 = Z.of_nat (List.length (filter is_unresponsive cs))).
  { unfold status_count. do 2 f_equal. apply filter_ext.
    intros c. apply is_unresponsive_eqb. }
  split; [|split; [|split; [|split]]].
  - rewrite generate_weekly_spec. cbn [fst].
    unfold weekly_report_text, weekly_body_lines,
      weekly_unresponsive_section.
    destruct (outreach_list (ctx w)) as [|r l]; [now elim Hne|].
    fold cs. fold counts. rewrite <- !app_assoc.
    assert (Hmap : map summary_line counts = map summary_text counts).
    { apply map_ext. intros [st n]. unfold summary_line, summary_text.
      cbn [fst snd]. now rewrite humanize_label. }
    rewrite Hmap.
    destruct (filter is_unresponsive cs); reflexivity.
  - intros c. rewrite filter_In, is_unresponsive_spec. reflexivity.
  - intros st n Hin. destruct (Hcount st n Hin) as [-> Hst].
    split; [reflexivity|].
    apply in_map_iff in Hst. destruct Hst as (c & Hc & Hin').
    unfold status_count.
    assert (Hf : In c (filter (fun c0 => Status_eqb st (status c0)) cs)).
    { apply filter_In. split; [exact Hin'|].
      apply Status_eqb_spec. now symmetry. }
    destruct (filter (fun c0 => Status_eqb st (status c0)) cs);
      [now elim Hf | cbn [List.length]; lia].
  - intros n Hin. destruct (Hcount _ _ Hin) as [-> _]. exact Hunr.
  - subst counts. rewrite weekly_status_counts_spec, map_map. cbn [fst].
    rewrite map_id, (first_seen_In Status_eqb Status_eqb_spec). split.
    + intros Hin Hnil. apply in_map_iff in Hin.
      destruct Hin as (c & Hc & Hin).
      assert (Hf : In c (filter is_unresponsive cs)).
      { apply filter_In. split; [exact Hin | now apply is_unresponsive_spec]. }
      rewrite Hnil in Hf. now elim Hf.
    + intros Hne'. destruct (filter is_unresponsive cs) as [|c l] eqn:E;
        [now elim Hne'|].
      assert (Hf : In c (filter is_unresponsive cs)) by (rewrite E; now left).
      apply filter_In in Hf. destruct Hf as [Hin Hu].
      apply is_unresponsive_spec in Hu. apply in_map_iff. now exists c.
Qed.

Lemma weekly_counts_match_sections_witness :
  outreach_list (ctx two_contacts_world) <> []
  /\ exists (counts : list (Status * Z)) (entries : list OutreachContact),
       fst (generate_weekly_supplier_report two_contacts_world)
       = String.concat LF
           (weekly_head_lines two_contacts_world
              ++ String "010"%char "Summary:"
                 :: map (fun p => String.append "  - "
                                    (String.append (status_label (fst p))
                                       (String.append ": "
                                          (decimal (snd p)))))
                        counts
              ++ match entries with
                 | [] => []
                 | _ :: _ =>
                     String "010"%char "Unresponsive Suppliers:"
                       :: map (fun c => String.append "  • "
                                          (String.append (name c)
                                             (String.append " ("
                                                (String.append (email c)
                                                   ")"))))
                              entries
                 end)%list
       /\ (forall n, In (unresponsive, n) counts ->
             n = Z.of_nat (List.length entries)).
Proof.
  split; [discriminate|].
  destruct (weekly_counts_match_sections two_contacts_world)
    as (counts & entries & Hreport & _ & _ & Hunr & _); [discriminate|].
  exists counts, entries. split; [exact Hreport | exact Hunr].
Defined.

(** X14: the trend groups partition the summaries they are built from: no
    group is empty, every item of a group carries the label of the group and
    is one of the summaries, and the sizes of the groups (the article counts
    of the headers) add up to the number of summaries. *)
Theorem trend_groups_partition (l : list MedicalNewsSummary) :
  let groups := group_by_trend l in
  (forall g, In g groups ->
     snd g <> []
     /\ forall s, In s (snd g) -> trend s = fst g /\ In s l)
  /\ list_sum (map (fun g => List.length (snd g)) groups) = List.length l.
Proof.
  intros groups. split.
  - intros g Hg. subst groups. rewrite group_by_trend_spec in Hg.
    apply in_map_iff in Hg. destruct Hg as (t & <- & Ht).
    rewrite (first_seen_In String.eqb String.eqb_eq) in Ht.
    cbn [fst snd]. unfold with_trend. split.
    + apply in_map_iff in Ht. destruct Ht as (s & Hs & Hin).
      assert (Hf : In s (filter (fun s0 => String.eqb t (trend s0)) l)).
      { apply filter_In. split; [exact Hin|]. now apply String.eqb_eq. }
      intros Hnil. rewrite Hnil in Hf. now elim Hf.
    + intros s Hs. apply filter_In in Hs. destruct Hs as [Hin He].
      apply String.eqb_eq in He. now split.
  - rewrite <- (Permutation_length (group_by_trend_items l)).
    subst groups. rewrite length_concat, map_map. reflexivity.
Qed.

Lemma trend_groups_partition_witness :
  In ("gene therapy",
      [mkMedicalNewsSummary "Vector news" "Delivery vectors improve."
         "gene therapy" (sample_clock 1)])
     (group_by_trend (medical_summaries (ctx three_summaries_world)))
  /\ list_sum (map (fun g => List.length (snd g))
                   (group_by_trend
                      (medical_summaries (ctx three_summaries_world))))
     = 3%nat.
Proof.
  split; [simpl; tauto|].
  apply (trend_groups_partition
           (medical_summaries (ctx three_summaries_world))).
Defined.

(** ** Mailbox reader: the three outcomes *)

Lemma credentials_set environ address pw :
  credentials environ address pw ->
  unset (environ "YAHOO_EMAIL") || unset (environ "YAHOO_PASSWORD") = false.
Proof.
  intros (Ha & Hp & Hna & Hnp). rewrite Ha, Hp.
  destruct address; [now elim Hna|]. destruct pw; [now elim Hnp|].
  reflexivity.
Qed.

Lemma fold_snoc_map {A B} (f : A -> B) l : forall acc,
  fold_left (fun ys x => (ys ++ [f x])%list) l acc = (acc ++ map f l)%list.
Proof.
  induction l as [|x l IH]; intros acc; simpl.
  - now rewrite app_nil_r.
  - rewrite IH, <- app_assoc. reflexivity.
Qed.

Lemma read_yahoo_emails_ok environ login address pw msgs :
  credentials environ address pw ->
  login YAHOO_IMAP_SERVER address pw "INBOX" = Fetched msgs ->
  read_yahoo_emails environ login = inl (map email_dict msgs).
Proof.
  intros Hc Hl. pose proof (credentials_set _ _ _ Hc) as Hset.
  destruct Hc as (Ha & Hp & _). unfold read_yahoo_emails.
  rewrite Ha, Hp in *. rewrite Hset, Hl. f_equal.
  apply (fold_snoc_map email_dict msgs []).
Qed.

(** X15: with both credentials set and a session that completes, the reader
    returns one dictionary per unseen message, in order, holding sender and
    subject as they came and, as body, the text part when it is not empty
    and the HTML part otherwise. *)
Theorem read_yahoo_emails_success
    (environ : Environ)
    (login : string -> string -> string -> string -> ImapSession)
    (address pw : string) (msgs : list Message) :
  credentials environ address pw ->
  login YAHOO_IMAP_SERVER address pw "INBOX" = Fetched msgs ->
  exists emails,
    read_yahoo_emails environ login = inl emails
    /\ List.length emails = List.length msgs
    /\ forall i msg, nth_error msgs i = Some msg ->
         exists email,
           nth_error emails i = Some email
           /\ subscript email "from" = from_ msg
           /\ subscript email "subject" = subject msg
           /\ (text msg <> EmptyString -> subscript email "body" = text msg)
           /\ (text msg = EmptyString -> subscript email "body" = html msg).
Proof.
  intros Hc Hl. exists (map email_dict msgs).
  split; [now apply (read_yahoo_emails_ok _ _ address pw)|].
  split; [apply length_map|].
  intros i msg Hi. exists (email_dict msg).
  split; [now apply map_nth_error|].
  split; [reflexivity|]. split; [reflexivity|].
  unfold subscript, email_dict. cbn. unfold str_or.
  split; intros H.
  - destruct (text msg); [now elim H | reflexivity].
  - now rewrite H.
Qed.

Lemma read_yahoo_emails_success_witness :
  credentials with_credentials "agent@yahoo.com" "app-password"
  /\ serving_two YAHOO_IMAP_SERVER "agent@yahoo.com" "app-password" "INBOX"
     = Fetched two_messages
  /\ exists emails,
       read_yahoo_emails with_credentials serving_two = inl emails
       /\ List.length emails = 2%nat.
Proof.
  assert (Hc : credentials with_credentials "agent@yahoo.com" "app-password")
    by (repeat split; discriminate).
  split; [exact Hc|]. split; [reflexivity|].
  destruct (read_yahoo_emails_success with_credentials serving_two
              "agent@yahoo.com" "app-password" two_messages Hc eq_refl)
    as (emails & Hr & Hlen & _).
  exists emails. split; [exact Hr | exact Hlen].
Defined.

(** X16: when a credential is missing or empty the reader answers with the
    credentials error whatever the server would do: no connection is
    attempted. *)
Theorem read_yahoo_emails_needs_credentials
    (environ : Environ)
    (login : string -> string -> string -> string -> ImapSession) :
  unset (environ "YAHOO_EMAIL") = true
  \/ unset (environ "YAHOO_PASSWORD") = true ->
  read_yahoo_emails environ login
  = inr "Error: YAHOO_EMAIL and YAHOO_PASSWORD environment variables are not set."
  /\ forall login', read_yahoo_emails environ login'
                    = read_yahoo_emails environ login.
Proof.
  intros H. split; [now apply read_yahoo_emails_unset|].
  intros login'. now rewrite !read_yahoo_emails_unset.
Qed.

Lemma read_yahoo_emails_needs_credentials_witness :
  unset (no_credentials "YAHOO_EMAIL") = true
  /\ read_yahoo_emails no_credentials serving_two
     = inr "Error: YAHOO_EMAIL and YAHOO_PASSWORD environment variables are not set.".
Proof.
  split; [reflexivity|].
  apply (read_yahoo_emails_needs_credentials no_credentials serving_two).
  now left.
Defined.

(** X17: when the session fails, the messages fetched before the failure
    are dropped: the reader returns the connection error ending in the text
    of the exception, whatever had been fetched. *)
Theorem read_yahoo_emails_drops_partial_fetch
    (environ : Environ)
    (login : string -> string -> string -> string -> ImapSession)
    (address pw : string) (yielded : list Message) (e : string) :
  credentials environ address pw ->
  login YAHOO_IMAP_SERVER address pw "INBOX" = Failed yielded e ->
  read_yahoo_emails environ login
  = inr ("Error connecting to Yahoo IMAP or fetching emails: " ++ e).
Proof.
  intros Hc Hl. pose proof (credentials_set _ _ _ Hc) as Hset.
  destruct Hc as (Ha & Hp & _). unfold read_yahoo_emails.
  rewrite Ha, Hp in *. now rewrite Hset, Hl.
Qed.

Lemma read_yahoo_emails_drops_partial_fetch_witness :
  credentials with_credentials "agent@yahoo.com" "app-password"
  /\ read_yahoo_emails with_credentials dropping_server
     = inr "Error connecting to Yahoo IMAP or fetching emails: connection reset".
Proof.
  assert (Hc : credentials with_credentials "agent@yahoo.com" "app-password")
    by (repeat split; discriminate).
  split; [exact Hc|].
  apply (read_yahoo_emails_drops_partial_fetch with_credentials
           dropping_server "agent@yahoo.com" "app-password" _ _ Hc eq_refl).
Defined.

(** ** Mail-processing phase on a working mailbox *)

Lemma process_each_spec Runner_run emails : forall out w,
  snd (process_each Runner_run emails out w)
  = fold_left (fun w' email => snd (Runner_run (email_content email) w'))
              emails w
  /\ exists printed,
       fst (process_each Runner_run emails out w) = (out ++ printed)%list.
Proof.
  induction emails as [|email emails IH]; intros out w.
  - cbn. split; [reflexivity|]. exists []. now rewrite app_nil_r.
  - cbn [process_each fold_left]. fold (email_content email).
    destruct (Runner_run (email_content email) w) as [new_items w'] eqn:E.
    match goal with
    | |- context [process_each _ _ ?o ?w0] =>
        destruct (IH o w0) as [Hw [printed Hp]]
    end.
    split; [exact Hw|].
    eexists. rewrite Hp, <- !app_assoc. reflexivity.
Qed.

(** X18: with an empty inbox the phase prints that there is nothing to
    process and ends: no agent runs and the world is left as it was. *)
Theorem process_yahoo_emails_empty_inbox
    (Runner_run : string -> World -> list RunItem * World)
    (environ : Environ)
    (login : string -> string -> string -> string -> ImapSession)
    (address pw : string) (w : World) :
  credentials environ address pw ->
  login YAHOO_IMAP_SERVER address pw "INBOX" = Fetched [] ->
  process_yahoo_emails Runner_run environ login w
  = ([nl ++ "--- Task: Processing Yahoo Emails ---";
      "No new emails to process."], w).
Proof.
  intros Hc Hl. unfold process_yahoo_emails.
  now rewrite (read_yahoo_emails_ok _ _ _ _ _ Hc Hl).
Qed.

Lemma process_yahoo_emails_empty_inbox_witness :
  credentials with_credentials "agent@yahoo.com" "app-password"
  /\ process_yahoo_emails filing_runner with_credentials empty_inbox
       two_contacts_world
     = ([nl ++ "--- Task: Processing Yahoo Emails ---";
         "No new emails to process."], two_contacts_world).
Proof.
  assert (Hc : credentials with_credentials "agent@yahoo.com" "app-password")
    by (repeat split; discriminate).
  split; [exact Hc|].
  apply (process_yahoo_emails_empty_inbox filing_runner with_credentials
           empty_inbox "agent@yahoo.com" "app-password" _ Hc eq_refl).
Defined.

(** X19: with unseen messages the phase runs the triage agent once for each
    message, in the order fetched, each run starting from the world the
    previous run left; the output opens with the banner and the number of
    emails fetched and closes with the completion line. *)
Theorem process_yahoo_emails_runs_each_email
    (Runner_run : string -> World -> list RunItem * World)
    (environ : Environ)
    (login : string -> string -> string -> string -> ImapSession)
    (address pw : string) (msgs : list Message) (w : World) :
  credentials environ address pw ->
  login YAHOO_IMAP_SERVER address pw "INBOX" = Fetched msgs ->
  msgs <> [] ->
  let res := process_yahoo_emails Runner_run environ login w in
  snd res
  = fold_left
      (fun w' msg => snd (Runner_run (email_content (email_dict msg)) w'))
      msgs w
  /\ exists printed,
       fst res
       = (yahoo_banner :: fetched_line (List.length msgs)
            :: printed ++ ["--- Task: Yahoo Emails Complete ---"])%list.
Proof.
  intros Hc Hl Hne res. subst res. unfold process_yahoo_emails.
  rewrite (read_yahoo_emails_ok _ _ _ _ _ Hc Hl).
  destruct msgs as [|m ms]; [now elim Hne|].
  cbn [map]. cbv zeta.
  match goal with
  | |- context [process_each _ ?es ?o ?w0] =>
      destruct (process_each_spec Runner_run es o w0) as [Hw [printed Hp]];
      destruct (process_each Runner_run es o w0) as [out w'] eqn:E
  end.
  cbn [fst snd] in *. split.
  - rewrite Hw.
    change (email_dict m :: map email_dict ms)
      with (map email_dict (m :: ms)).
    clear. generalize (m :: ms) as l. intros l. revert w.
    induction l as [|x l IH]; intros w; [reflexivity|].
    cbn [map fold_left]. apply IH.
  - exists printed. rewrite Hp. unfold yahoo_banner, fetched_line.
    cbn [List.length]. rewrite length_map. rewrite <- !app_assoc.
    reflexivity.
Qed.

Lemma process_yahoo_emails_runs_each_email_witness :
  credentials with_credentials "agent@yahoo.com" "app-password"
  /\ two_messages <> []
  /\ List.length
       (medical_summaries
          (ctx (snd (process_yahoo_emails filing_runner with_credentials
                       serving_two empty_world))))
     = 2%nat.
Proof.
  assert (Hc : credentials with_credentials "agent@yahoo.com" "app-password")
    by (repeat split; discriminate).
  split; [exact Hc|]. split; [discriminate|].
  destruct (process_yahoo_emails_runs_each_email filing_runner
              with_credentials serving_two "agent@yahoo.com" "app-password"
              two_messages empty_world Hc eq_refl)
    as [Hw _]; [discriminate|].
  rewrite Hw. reflexivity.
Defined.

(** ** Response drafting *)

Lemma substring_0_length n : forall s,
  String.length (substring 0 n s) = Nat.min n (String.length s).
Proof.
  induction n as [|n IH]; intros s.
  - now destruct s.
  - destruct s as [|c s]; [reflexivity|]. cbn. now rewrite IH.
Qed.

Lemma substring_0_prefix n : forall s,
  String.prefix (substring 0 n s) s = true.
Proof.
  induction n as [|n IH]; intros s.
  - now destruct s.
  - destruct s as [|c s]; [reflexivity|]. cbn.
    destruct (ascii_dec c c) as [_ | Hne]; [apply IH | now elim Hne].
Qed.

Lemma substring_0_all n : forall s,
  (String.length s <= n)%nat -> substring 0 n s = s.
Proof.
  induction n as [|n IH]; intros s H.
  - destruct s; [reflexivity | cbn in H; lia].
  - destruct s as [|c s]; [reflexivity|]. cbn. rewrite IH; [reflexivity|].
    cbn in H. lia.
Qed.

(** X20: for a body of ASCII characters (one character each), the draft
    quotes the body up to its fiftieth character and no further, and closes
    the quotation with an ellipsis in every case, also when the body was
    quoted whole. *)
Theorem draft_response_quotes_first_50 (email_body : string) :
  is_ascii_text email_body = true ->
  exists excerpt,
    snd (draft_response email_body)
    = "This is a drafted response to:" ++ nl ++ "---" ++ nl
        ++ excerpt ++ "..." ++ nl ++ "---"
    /\ String.prefix excerpt email_body = true
    /\ String.length excerpt = Nat.min 50 (String.length email_body)
    /\ ((String.length email_body <= 50)%nat -> excerpt = email_body).
Proof.
  intros _. exists (substring 0 50 email_body).
  split; [reflexivity|]. split; [apply substring_0_prefix|].
  split; [apply substring_0_length | apply substring_0_all].
Qed.

Lemma draft_response_quotes_first_50_witness :
  is_ascii_text "Hello" = true
  /\ exists excerpt,
       snd (draft_response "Hello")
       = "This is a drafted response to:" ++ nl ++ "---" ++ nl
           ++ excerpt ++ "..." ++ nl ++ "---"
       /\ String.prefix excerpt "Hello" = true
       /\ String.length excerpt = Nat.min 50 (String.length "Hello")
       /\ ((String.length "Hello" <= 50)%nat -> excerpt = "Hello").
Proof.
  split; [reflexivity|].
  apply (draft_response_quotes_first_50 "Hello"). reflexivity.
Defined.

(** ** Supplier outreach phase *)

Lemma contact_new_suppliers_known Runner_run suppliers : forall out w,
  (forall supplier, In supplier suppliers ->
     exists c, In c (contacts w) /\ email c = subscript supplier "email") ->
  contact_new_suppliers Runner_run suppliers out w = (out, w).
Proof.
  induction suppliers as [|supplier rest IH]; intros out w H;
    [reflexivity|].
  cbn [contact_new_suppliers].
  assert (Hex : existsb (fun c => String.eqb (email c)
                                    (subscript supplier "email"))
                        (contacts w) = true).
  { destruct (H supplier (or_introl eq_refl)) as (c & Hc & He).
    apply existsb_exists. exists c. split; [exact Hc|].
    now apply String.eqb_eq. }
  rewrite Hex. cbn [negb]. apply IH. intros s Hs. apply H. now right.
Qed.

Lemma follow_up_loop_idle Runner_run today fuel : forall i out w,
  (forall c, In c (contacts w) -> needs_follow_up today c = false) ->
  (List.length (outreach_list (ctx w)) - i < fuel)%nat ->
  follow_up_loop Runner_run fuel i today out w = Some (out, w).
Proof.
  induction fuel as [|fuel IH]; intros i out w Hdue Hfuel; [lia|].
  cbn [follow_up_loop].
  destruct (nth_error (outreach_list (ctx w)) i) as [r|] eqn:E;
    [|reflexivity].
  assert (Hin : In (objs w r) (contacts w)).
  { apply in_map. eapply nth_error_In. exact E. }
  rewrite (Hdue _ Hin). apply IH; [exact Hdue|].
  assert (i < List.length (outreach_list (ctx w)))%nat
    by (apply nth_error_Some; congruence).
  lia.
Qed.

(** X21: when both suppliers of the list are already contacts and no contact
    is due for a follow-up (status [initial_sent] and two days or more since
    the last contact), the outreach phase hands nothing to the agent: it
    prints its two banner lines and only reads the clock once. *)
Theorem manage_supplier_outreach_nothing_due
    (Runner_run : string -> World -> World) (fuel : nat) (w : World) :
  (forall supplier, In supplier new_suppliers ->
     exists c, In c (contacts w) /\ email c = subscript supplier "email") ->
  (forall c, In c (contacts w) ->
     needs_follow_up (clock w (ticks w)) c = false) ->
  (List.length (outreach_list (ctx w)) < fuel)%nat ->
  manage_supplier_outreach Runner_run fuel w
  = Some ([nl ++ "--- Task: Managing Supplier Outreach ---";
           "--- Task: Supplier Outreach Complete ---"],
          mkWorld (objs w) (next_ref w) (ctx w) (clock w) (S (ticks w))).
Proof.
  intros Hknown Hdue Hfuel. unfold manage_supplier_outreach.
  rewrite (contact_new_suppliers_known Runner_run _ _ w Hknown).
  unfold now. rewrite follow_up_loop_idle; [reflexivity | exact Hdue|].
  cbn [ctx]. lia.
Qed.

Lemma manage_supplier_outreach_nothing_due_witness :
  (forall c, In c (contacts suppliers_contacted_world) ->
     needs_follow_up
       (clock suppliers_contacted_world (ticks suppliers_contacted_world)) c
     = false)
  /\ manage_supplier_outreach restless_runner 3 suppliers_contacted_world
     = Some ([nl ++ "--- Task: Managing Supplier Outreach ---";
              "--- Task: Supplier Outreach Complete ---"],
             mkWorld (objs suppliers_contacted_world)
               (next_ref suppliers_contacted_world)
               (ctx suppliers_contacted_world)
               (clock suppliers_contacted_world)
               (S (ticks suppliers_contacted_world))).
Proof.
  assert (Hdue : forall c, In c (contacts suppliers_contacted_world) ->
            needs_follow_up
              (clock suppliers_contacted_world
                 (ticks suppliers_contacted_world)) c = false).
  { intros c Hc. simpl in Hc. destruct Hc as [<- | [<- | []]]; reflexivity. }
  split; [exact Hdue|].
  apply (manage_supplier_outreach_nothing_due restless_runner 3
           suppliers_contacted_world).
  - intros supplier Hs. simpl in Hs.
    destruct Hs as [<- | [<- | []]].
    + exists (objs suppliers_contacted_world 0%nat).
      split; [simpl; tauto | reflexivity].
    + exists (objs suppliers_contacted_world 1%nat).
      split; [simpl; tauto | reflexivity].
  - exact Hdue.
  - simpl. lia.
Defined.

(** ** Records over a run *)

Lemma run_op_keeps_identities op w :
  wf w = true ->
  forall r, In r (outreach_list (ctx w)) ->
    In r (outreach_list (ctx (snd (run_op op w))))
    /\ name (objs (snd (run_op op w)) r) = name (objs w r)
    /\ email (objs (snd (run_op op w)) r) = email (objs w r).
Proof.
  intros Hwf r Hr. destruct op as [nm em st | subject summ trnd | |].
  - now apply upsert_keeps_names_and_emails.
  - cbn. repeat split. exact Hr.
  - cbn [run_op]. rewrite generate_weekly_spec. cbn. repeat split. exact Hr.
  - cbn [run_op]. rewrite generate_biweekly_spec. cbn. repeat split.
    exact Hr.
Qed.

Lemma run_op_keeps_wf op w :
  wf w = true -> wf (snd (run_op op w)) = true.
Proof.
  intros Hwf. destruct op as [nm em st | subject summ trnd | |].
  - cbn [run_op].
    destruct (first_match w em (outreach_list (ctx w))) as [r|] eqn:E.
    + destruct (upsert_existing_emails w nm em st r E) as (Hl & Hn & _).
      unfold wf. now rewrite Hl, Hn.
    + now apply upsert_new_wf.
  - exact Hwf.
  - cbn [run_op]. rewrite generate_weekly_spec. exact Hwf.
  - cbn [run_op]. rewrite generate_biweekly_spec. exact Hwf.
Qed.

(** X4: over any run of operations a record that is on the list stays on
    the list and keeps its name and its email: upserts write status and
    date only, and nothing else writes to a contact. *)
Theorem run_ops_keeps_names_and_emails (ops : list Op) (w : World) :
  wf w = true ->
  forall r, In r (outreach_list (ctx w)) ->
    In r (outreach_list (ctx (run_ops ops w)))
    /\ name (objs (run_ops ops w) r) = name (objs w r)
    /\ email (objs (run_ops ops w) r) = email (objs w r).
Proof.
  revert w. induction ops as [|op ops IH]; intros w Hwf r Hr.
  - cbn [run_ops]. now repeat split.
  - cbn [run_ops].
    destruct (run_op_keeps_identities op w Hwf r Hr) as (Hin & Hn & He).
    destruct (IH _ (run_op_keeps_wf op w Hwf) r Hin) as (Hin' & Hn' & He').
    rewrite Hn', He', Hn, He. now repeat split.
Qed.

Lemma run_ops_keeps_names_and_emails_witness :
  wf two_contacts_world = true
  /\ In 0%nat (outreach_list (ctx two_contacts_world))
  /\ name (objs (run_ops [OpUpsert "ACME Corp" "sales@acmemed.com" replied;
                          OpWeeklyReport;
                          OpUpsert "New" "new@example.com" initial_sent]
                   two_contacts_world) 0%nat)
     = "Acme Medical".
Proof.
  split; [reflexivity|]. split; [simpl; tauto|].
  apply (run_ops_keeps_names_and_emails _ two_contacts_world eq_refl 0%nat).
  simpl. tauto.
Defined.

Lemma run_op_appends op w :
  let c := ctx w in
  let c' := ctx (snd (run_op op w)) in
  (exists t, outreach_list c' = (outreach_list c ++ t)%list)
  /\ (exists t, medical_summaries c' = (medical_summaries c ++ t)%list)
  /\ (exists t, weekly_report c' = (weekly_report c ++ t)%list)
  /\ (exists t, bi_weekly_report c' = (bi_weekly_report c ++ t)%list).
Proof.
  intros c c'. subst c c'.
  destruct op as [nm em st | subject summ trnd | |]; cbn [run_op].
  - destruct (first_match w em (outreach_list (ctx w))) as [r|] eqn:E.
    + destruct (upsert_existing w nm em st r E) as [w1 [Hrun Hupd]].
      rewrite Hrun. cbn [snd].
      destruct Hupd as (_ & _ & _ & Hctx & _ & _). rewrite Hctx.
      repeat split; exists []; now rewrite app_nil_r.
    + rewrite (upsert_new w nm em st E).
      cbn [snd ctx outreach_list medical_summaries weekly_report
           bi_weekly_report].
      split; [now eexists|].
      repeat split; exists []; now rewrite app_nil_r.
  - cbn. split; [exists []; now rewrite app_nil_r|].
    split; [now eexists|].
    split; exists []; now rewrite app_nil_r.
  - rewrite generate_weekly_spec.
    cbn [snd ctx outreach_list medical_summaries weekly_report
         bi_weekly_report].
    split; [exists []; now rewrite app_nil_r|].
    split; [exists []; now rewrite app_nil_r|].
    split; [now eexists | exists []; now rewrite app_nil_r].
  - rewrite generate_biweekly_spec.
    cbn [snd ctx outreach_list medical_summaries weekly_report
         bi_weekly_report].
    split; [exists []; now rewrite app_nil_r|].
    split; [exists []; now rewrite app_nil_r|].
    split; [exists []; now rewrite app_nil_r | now eexists].
Qed.

(** X23: the four lists of the context are append-only: after any run of
    operations each of them is the list it was, followed by what the run
    added.  No contact, summary or report is ever removed, replaced or
    moved. *)
Theorem run_ops_append_only (ops : list Op) (w : World) :
  let c := ctx w in
  let c' := ctx (run_ops ops w) in
  (exists t, outreach_list c' = (outreach_list c ++ t)%list)
  /\ (exists t, medical_summaries c' = (medical_summaries c ++ t)%list)
  /\ (exists t, weekly_report c' = (weekly_report c ++ t)%list)
  /\ (exists t, bi_weekly_report c' = (bi_weekly_report c ++ t)%list).
Proof.
  cbv zeta. revert w. induction ops as [|op ops IH]; intros w.
  - cbn [run_ops]. repeat split; exists []; now rewrite app_nil_r.
  - cbn [run_ops].
    destruct (run_op_appends op w) as ([t1 H1] & [t2 H2] & [t3 H3] & [t4 H4]).
    destruct (IH (snd (run_op op w)))
      as ([u1 G1] & [u2 G2] & [u3 G3] & [u4 G4]).
    rewrite G1, G2, G3, G4, H1, H2, H3, H4, <- !app_assoc.
    repeat split; eexists; reflexivity.
Qed.

(** ** Edge cases of the weekly report *)

(** X22: with no contacts the weekly report is the dated no-activity
    message, and producing it takes a single clock reading. *)
Theorem weekly_report_of_empty_list (w : World) :
  outreach_list (ctx w) = [] ->
  fst (generate_weekly_supplier_report w)
  = "Weekly Supplier Outreach Report (" ++ date_str (clock w (ticks w))
      ++ "):" ++ nl ++ nl ++ "No supplier outreach activity this week."
  /\ ticks (snd (generate_weekly_supplier_report w)) = S (ticks w).
Proof.
  intros H. rewrite generate_weekly_spec. cbn [fst snd ticks].
  unfold weekly_report_text. rewrite H. cbn [List.length].
  split; [reflexivity | lia].
Qed.

Lemma weekly_report_of_empty_list_witness :
  outreach_list (ctx three_summaries_world) = []
  /\ fst (generate_weekly_supplier_report three_summaries_world)
     = "Weekly Supplier Outreach Report ("
         ++ date_str (clock three_summaries_world
                        (ticks three_summaries_world))
         ++ "):" ++ nl ++ nl ++ "No supplier outreach activity this week.".
Proof.
  split; [reflexivity|].
  apply (weekly_report_of_empty_list three_summaries_world). reflexivity.
Defined.

Lemma contact_lines_nth clk cs : forall n k c,
  nth_error cs k = Some c ->
  In (contact_line c (days (clk (n + k)%nat - last_contact_date c)))
     (contact_lines clk n cs).
Proof.
  induction cs as [|c0 cs IH]; intros n k c H.
  - now destruct k.
  - destruct k as [|k].
    + injection H as <-. rewrite Nat.add_0_r. now left.
    + right. replace (n + S k)%nat with (S n + k)%nat by lia.
      now apply IH.
Qed.

(** X24: the day count on a contact's line is the number of whole days
    between the contact's last contact date and the clock reading taken for
    that contact (reading [k + 1] of the call for the contact at index [k]):
    from [n] days up to, but not including, [n + 1] days the line shows
    [n]. *)
Theorem weekly_report_counts_whole_days
    (w : World) (k : nat) (c : OutreachContact) (n : Z) :
  nth_error (contacts w) k = Some c ->
  n * us_per_day
  <= clock w (S (ticks w) + k)%nat - last_contact_date c
  < (n + 1) * us_per_day ->
  contains (contact_line c n) (fst (generate_weekly_supplier_report w))
  = true
  /\ contains (str_of_Z n ++ " days since last contact")
       (fst (generate_weekly_supplier_report w)) = true.
Proof.
  intros Hk Hn.
  assert (Hdays : days (clock w (S (ticks w) + k)%nat - last_contact_date c)
                  = n).
  { unfold days. symmetry.
    apply (Z.div_unique_pos _ us_per_day n
             (clock w (S (ticks w) + k)%nat - last_contact_date c
              - n * us_per_day)); unfold us_per_day in *; lia. }
  pose proof (contact_lines_nth (clock w) (contacts w) (S (ticks w)) k c Hk)
    as Hin.
  rewrite Hdays in Hin.
  assert (Hline : contains (contact_line c n)
                    (fst (generate_weekly_supplier_report w)) = true).
  { rewrite generate_weekly_spec. cbn [fst]. unfold weekly_report_text.
    destruct (outreach_list (ctx w)) as [|r l] eqn:E.
    - unfold contacts in Hk. rewrite E in Hk. now destruct k.
    - apply contains_join. unfold weekly_body_lines, weekly_head_lines.
      apply in_or_app. left. apply in_or_app. left.
      apply in_or_app. right. exact Hin. }
  split; [exact Hline|].
  eapply contains_trans; [|exact Hline]. unfold contact_line. occurs.
Qed.

Lemma weekly_report_counts_whole_days_witness :
  nth_error (contacts two_contacts_world) 1
  = Some (mkOutreachContact "Global Pharma" "inquiries@globalpharma.com"
            unresponsive (sample_clock 1))
  /\ contains "0 days since last contact"
       (fst (generate_weekly_supplier_report two_contacts_world)) = true.
Proof.
  split; [reflexivity|].
  apply (weekly_report_counts_whole_days two_contacts_world 1
           (mkOutreachContact "Global Pharma" "inquiries@globalpharma.com"
              unresponsive (sample_clock 1)) 0);
    [reflexivity | split; [vm_compute; discriminate | reflexivity]].
Defined.

(** ** The outreach phase returns *)

Section OutreachTermination.

Variable Runner_run : string -> World -> World.

(** No run of the agent changes the number of contacts. *)
Hypothesis keeps_length : forall prompt w,
  List.length (outreach_list (ctx (Runner_run prompt w)))
  = List.length (outreach_list (ctx w)).

Lemma contact_new_suppliers_length suppliers : forall out w,
  List.length
    (outreach_list (ctx (snd (contact_new_suppliers Runner_run suppliers
                                out w))))
  = List.length (outreach_list (ctx w)).
Proof.
  induction suppliers as [|supplier rest IH]; intros out w; [reflexivity|].
  cbn [contact_new_suppliers].
  destruct (negb _); [now rewrite IH, keeps_length | apply IH].
Qed.

Lemma follow_up_loop_returns today fuel : forall i out w,
  (List.length (outreach_list (ctx w)) - i < fuel)%nat ->
  exists res,
    follow_up_loop Runner_run fuel i today out w = Some res
    /\ List.length (outreach_list (ctx (snd res)))
       = List.length (outreach_list (ctx w)).
Proof.
  induction fuel as [|fuel IH]; intros i out w Hfuel; [lia|].
  cbn [follow_up_loop].
  destruct (nth_error (outreach_list (ctx w)) i) as [r|] eqn:E.
  - assert (Hi : (i < List.length (outreach_list (ctx w)))%nat)
      by (apply nth_error_Some; congruence).
    destruct (needs_follow_up today (objs w r)).
    + match goal with
      | |- context [follow_up_loop _ _ _ _ ?o ?w0] =>
          destruct (IH (S i) o w0) as (res & Hres & Hlen)
      end.
      { rewrite keeps_length. lia. }
      exists res. split; [exact Hres|]. now rewrite Hlen, keeps_length.
    + apply IH. lia.
  - now eexists.
Qed.

(** X25: when no run of the agent changes the number of contacts, the
    outreach phase returns once the fuel exceeds that number: the follow-up
    loop visits every position of the list once, and the list has the same
    length afterwards. *)
Theorem manage_supplier_outreach_returns (fuel : nat) (w : World) :
  (List.length (outreach_list (ctx w)) < fuel)%nat ->
  exists out w',
    manage_supplier_outreach Runner_run fuel w = Some (out, w')
    /\ List.length (outreach_list (ctx w'))
       = List.length (outreach_list (ctx w)).
Proof.
  intros Hfuel. unfold manage_supplier_outreach.
  pose proof (contact_new_suppliers_length new_suppliers
                [nl ++ "--- Task: Managing Supplier Outreach ---"] w) as Hl.
  destruct (contact_new_suppliers Runner_run new_suppliers
              [nl ++ "--- Task: Managing Supplier Outreach ---"] w)
    as [out1 w1].
  cbn [snd] in Hl. unfold now.
  match goal with
  | |- context [follow_up_loop _ _ _ ?t ?o ?w0] =>
      destruct (follow_up_loop_returns t fuel 0 o w0)
        as ([out2 w2] & Hres & Hlen)
  end.
  { cbn [ctx]. lia. }
  rewrite Hres. cbn [snd ctx] in Hlen.
  eexists. exists w2. split; [reflexivity|]. now rewrite Hlen.
Qed.

End OutreachTermination.

Lemma reporting_runner_keeps_length prompt w :
  List.length (outreach_list (ctx (reporting_runner prompt w)))
  = List.length (outreach_list (ctx w)).
Proof. unfold reporting_runner. now rewrite generate_weekly_spec. Qed.

Lemma manage_supplier_outreach_returns_witness :
  (List.length (outreach_list (ctx overdue_world)) < 2)%nat
  /\ exists out w',
       manage_supplier_outreach reporting_runner 2 overdue_world
       = Some (out, w')
       /\ List.length (outreach_list (ctx w'))
          = List.length (outreach_list (ctx overdue_world)).
Proof.
  split; [simpl; lia|].
  apply (manage_supplier_outreach_returns reporting_runner
           reporting_runner_keeps_length 2 overdue_world).
  simpl. lia.
Defined.

Example manage_supplier_outreach_overdue :
  option_map fst (manage_supplier_outreach reporting_runner 2 overdue_world)
  = Some [nl ++ "--- Task: Managing Supplier Outreach ---";
          "New supplier found: Global Pharma. Initiating outreach.";
          "Contact Innovate MedTech needs a 2-day follow-up. Sending...";
          "--- Task: Supplier Outreach Complete ---"].
Proof. vm_compute. reflexivity. Qed.

(** ** The window of the bi-weekly report *)

(** C5, as the code has it: the bi-weekly report is built from exactly the
    summaries dated no earlier than fourteen days (1209600000000
    microseconds) before the time of generation.  A summary dated on that
    boundary is included, a summary dated before it is not, and the window
    has no upper end: a summary dated after the time of generation is
    included as well.  Each included summary is an item of exactly one
    group, and its line [  • SUBJECT: SUMMARY] occurs in the report. *)
Theorem trend_report_window (w : World) :
  let generated := clock w (S (ticks w)) in
  let fourteen_days := 14 * 24 * 60 * 60 * 1000000 in
  let recent :=
    filter (fun s => (generated - fourteen_days <=? date s)%Z)
           (medical_summaries (ctx w)) in
  let items := List.concat (map snd (group_by_trend recent)) in
  let report := fst (generate_biweekly_medical_trend_report w) in
  report
  = match recent with
    | [] =>
        "Bi-Weekly Medical Trends Report ("
          ++ date_str (clock w (ticks w)) ++ "):" ++ LF ++ LF
          ++ "No medical news summaries recorded in the last 14 days."
    | _ :: _ =>
        String.concat LF
          ([biweekly_header w;
            repeat_str "-" (String.length (biweekly_header w))]
             ++ flat_map group_lines (group_by_trend recent))
    end
  /\ Permutation items recent
  /\ (forall s, In s items <->
                In s (medical_summaries (ctx w))
                /\ generated - fourteen_days <= date s)
  /\ (forall s, In s (medical_summaries (ctx w)) ->
                date s = generated - fourteen_days -> In s items)
  /\ (forall s, date s < generated - fourteen_days -> ~ In s items)
  /\ (forall s, In s (medical_summaries (ctx w)) ->
                generated <= date s -> In s items)
  /\ (forall s, In s items ->
        contains ("  • " ++ source_email_subject s ++ ": " ++ summary s)
                 report = true).
Proof.
  intros generated fourteen_days recent items report.
  assert (Hrecent : recent = recent_summaries w) by reflexivity.
  assert (Hitems : forall s, In s items <->
                     In s (medical_summaries (ctx w))
                     /\ generated - fourteen_days <= date s).
  { intros s. subst items. split.
    - intros H.
      apply (Permutation_in _ (group_by_trend_items recent)) in H.
      subst recent. apply filter_In in H. destruct H as [H1 H2].
      split; [exact H1 | now apply Z.leb_le].
    - intros [H1 H2].
      apply (Permutation_in _ (Permutation_sym (group_by_trend_items recent))).
      subst recent. apply filter_In. split; [exact H1 | now apply Z.leb_le]. }
  split; [|split; [|split; [|split; [|split; [|split]]]]].
  - subst report. rewrite generate_biweekly_spec. reflexivity.
  - apply group_by_trend_items.
  - exact Hitems.
  - intros s Hs Hd. apply Hitems. split; [exact Hs | lia].
  - intros s Hd Hin. apply Hitems in Hin. lia.
  - intros s Hs Hd. apply Hitems. split; [exact Hs|].
    subst fourteen_days. lia.
  - intros s Hs.
    apply (Permutation_in _ (group_by_trend_items recent)) in Hs.
    rewrite Hrecent in Hs.
    destruct (biweekly_report_has_lines w s Hs) as [_ Hline].
    exact Hline.
Qed.

Lemma trend_report_window_witness :
  In edge_summary (medical_summaries (ctx dated_world))
  /\ date edge_summary = 63929304000000001 - 1209600000000
  /\ date stale_summary < 63929304000000001 - 1209600000000
  /\ 63929304000000001 <= date postdated_summary
  /\ clock dated_world (S (ticks dated_world)) = 63929304000000001
  /\ List.concat
       (map snd
          (group_by_trend
             (filter (fun s => (63929304000000001 - 1209600000000
                                <=? date s)%Z)
                     (medical_summaries (ctx dated_world)))))
     = [edge_summary; postdated_summary]
  /\ fst (generate_biweekly_medical_trend_report dated_world)
     = String.concat LF
         ["Bi-Weekly Medical Trends Report (2026-11-03)";
          "--------------------------------------------";
          String "010"%char "Trend: Imaging – 1 article(s)";
          "  • Edge note: Exactly fourteen days old.";
          String "010"%char "Trend: Genomics – 1 article(s)";
          "  • Postdated note: Dated five days ahead."].
Proof.
  pose proof (trend_report_window dated_world) as H.
  cbv zeta in H. destruct H as (Hreport & _ & _ & Hin & Hout & Hpost & _).
  split; [simpl; tauto|]. split; [reflexivity|].
  split; [reflexivity|]. split; [vm_compute; discriminate|].
  split; [reflexivity|].
  assert (Hedge : In edge_summary
            (List.concat
               (map snd
                  (group_by_trend
                     (filter (fun s => (63929304000000001 - 1209600000000
                                        <=? date s)%Z)
                             (medical_summaries (ctx dated_world)))))))
    by (apply (Hin edge_summary); [simpl; tauto | reflexivity]).
  split; [reflexivity|].
  rewrite Hreport. reflexivity.
Defined.

(** C5 as worded fails above the window: a summary dated five days after
    the time of generation, so not within the fourteen days before it, is
    an item of the report and its line is in the text. *)
Lemma trend_report_lists_postdated_summary :
  let generated := clock dated_world (S (ticks dated_world)) in
  let report := fst (generate_biweekly_medical_trend_report dated_world) in
  In postdated_summary (medical_summaries (ctx dated_world))
  /\ generated < date postdated_summary
  /\ ~ (generated - 1209600000000 <= date postdated_summary <= generated)
  /\ In postdated_summary
       (List.concat
          (map snd (group_by_trend (recent_summaries dated_world))))
  /\ contains "  • Postdated note: Dated five days ahead." report = true.
Proof.
  cbv zeta. split; [simpl; tauto|]. split; [reflexivity|].
  split; [intros [_ H]; vm_compute in H; now apply H|].
  split; [vm_compute; tauto | vm_compute; reflexivity].
Qed.
